(** * ghkeys: fetching the SSH public keys of GitHub users

    A shallow embedding of [ghkeys.py] and the properties its
    specification states about it.

    Conventions of the embedding.
    - A Python [str] is a [string]; a character is the code point of its
      [ascii] value (code points 0 to 255).  The classification of
      characters ([str.isspace], the line boundaries of [str.splitlines],
      the escapes of [json.dumps]) is CPython's, restricted to that range.
    - [None] is [None]; a value of type [str | None] is an [option string].
    - The effects of the program (the two output streams, the file system,
      [sys.exit]) are threaded through a state-and-exit monad [M].
    - The network and the event loop are the environment: what every
      request runs into, and the order in which the requests complete. *)

From Stdlib Require Import Ascii NArith ZArith.
From stdpp Require Import base option list strings pretty gmap.

Local Open Scope Z_scope.
Set Warnings "-register-all".

(** ** Text primitives of the Python runtime *)

Module Str.

Definition code (c : ascii) : N := N_of_ascii c.

(** [str.isspace] on one character. *)
Definition isspace (c : ascii) : bool :=
  let n := code c in
  ((9 <=? n) && (n <=? 13) || (28 <=? n) && (n <=? 32)
   || (n =? 133) || (n =? 160))%N.

(** The line boundaries [str.splitlines] splits at. *)
Definition is_linebreak (c : ascii) : bool :=
  let n := code c in
  ((10 <=? n) && (n <=? 13) || (28 <=? n) && (n <=? 30) || (n =? 133))%N.

Definition LF : ascii := ascii_of_N 10.
Definition CR : ascii := ascii_of_N 13.
Definition nl : string := String LF "".

(** Truth value of a string: [bool(s)]. *)
Definition truthy (s : string) : bool :=
  match s with "" => false | String _ _ => true end.

(** Truth value of a [str | None]. *)
Definition truthy_opt (o : option string) : bool :=
  match o with None => false | Some s => truthy s end.

Fixpoint lstrip (s : string) : string :=
  match s with
  | "" => ""
  | String c r => if isspace c then lstrip r else s
  end.

Fixpoint rstrip (s : string) : string :=
  match s with
  | "" => ""
  | String c r =>
      let r' := rstrip r in
      if isspace c && negb (truthy r') then "" else String c r'
  end.

(** [s.strip()]. *)
Definition strip (s : string) : string := rstrip (lstrip s).

(** [sep.join(parts)]. *)
Fixpoint join (sep : string) (parts : list string) : string :=
  match parts with
  | [] => ""
  | [p] => p
  | p :: rest => p +:+ sep +:+ join sep rest
  end.

(** [s.splitlines()]: [cur] is the line being read.  A carriage return
    followed by a line feed is one boundary; no empty line is reported
    after a final boundary. *)
Fixpoint splitlines_from (cur s : string) : list string :=
  match s with
  | "" => if truthy cur then [cur] else []
  | String c r =>
      if is_linebreak c then
        cur :: match r with
               | String c' r' =>
                   if Ascii.eqb c CR && Ascii.eqb c' LF
                   then splitlines_from "" r'
                   else splitlines_from "" r
               | "" => splitlines_from "" r
               end
      else splitlines_from (cur +:+ String c "") r
  end.

Definition splitlines (s : string) : list string := splitlines_from "" s.

(** The first and the last character of a string. *)
Definition head (s : string) : option ascii :=
  match s with "" => None | String c _ => Some c end.

Fixpoint last (s : string) : option ascii :=
  match s with
  | "" => None
  | String c "" => Some c
  | String _ r => last r
  end.

End Str.

(** ** The data model *)

Record FetchResult := mkFetchResult {
  user : string;
  keys : option string;
  error : option string
}.

(** ** The fetcher *)

(** What an exception handler of [fetch_keys] sees: [asyncio.TimeoutError],
    or another [Exception] whose [str(e)] is [descr].  (An interrupt of the
    process is not an [Exception]; it ends the whole run and is outside the
    model.) *)
Inductive exn :=
  | TimeoutError
  | OtherException (descr : string).

(** What one request runs into.  Either [session.get] raises, or it gives
    a response with a status; the body is read ([await resp.text()]) only
    when the program asks for it, and reading it can raise too. *)
Inductive exchange :=
  | GetRaises (e : exn)
  | Response (status : Z) (text : exn + string).

Definition on_exception (user : string) (e : exn) : FetchResult :=
  match e with
  | TimeoutError => mkFetchResult user None (Some "Request timed out")
  | OtherException descr => mkFetchResult user None (Some descr)
  end.

Definition fetch_keys (x : exchange) (user : string) : FetchResult :=
  match x with
  | GetRaises e => on_exception user e
  | Response status body =>
      if decide (status = 404) then
        mkFetchResult user None (Some "User not found")
      else if decide (status ≠ 200) then
        mkFetchResult user None (Some ("HTTP " +:+ pretty status))
      else
        match body with
        | inl e => on_exception user e
        | inr raw =>
            let text := Str.strip raw in
            if negb (Str.truthy text) then
              mkFetchResult user None (Some "No keys found")
            else mkFetchResult user (Some text) None
        end
  end.

(** ** The concurrent dispatcher *)

(** [asyncio.gather] keeps one slot per awaitable, in the order they were
    passed.  The event loop completes the requests in some order
    [completion] (a list of request indices); completing request [i]
    stores its result in slot [i]. *)
Definition complete (users : list string) (net : nat → exchange)
    (slots : list (option FetchResult)) (i : nat) : list (option FetchResult) :=
  match users !! i with
  | Some u => <[i := Some (fetch_keys (net i) u)]> slots
  | None => slots
  end.

Definition run_loop (users : list string) (net : nat → exchange)
    (completion : list nat) : list (option FetchResult) :=
  foldl (complete users net) (replicate (length users) None) completion.

(** [gather] returns once every slot is filled ([None]: it never does). *)
Fixpoint gather (slots : list (option FetchResult)) : option (list FetchResult) :=
  match slots with
  | [] => Some []
  | None :: _ => None
  | Some r :: rest =>
      match gather rest with
      | Some rs => Some (r :: rs)
      | None => None
      end
  end.

Definition fetch_all (net : nat → exchange) (completion : list nat)
    (users : list string) : option (list FetchResult) :=
  gather (run_loop users net completion).

(** ** Effects: output streams, file system, exit *)

(** The file system, as far as the program looks at it through [pathlib]:
    what is at each path, a regular file with its content or a directory.
    It refuses to create a directory where, or below where, a regular file
    is, and to write a directory as a file; permissions, links and full
    disks are outside the model. *)
Inductive node :=
  | File (content : string)
  | Dir.

(** A [pathlib.Path]: the text [str(path)] gives, and the place it names,
    as the list of names that lead to it from the root (the root itself,
    [[]], is always a directory).  How a command-line string becomes a
    [Path] ([Path(s).expanduser()]) is the environment's. *)
Record Path := mkPath {
  path_str : string;
  parts : list string
}.

Record world := mkWorld {
  stdout : string;
  stderr : string;
  fs : gmap (list string) node
}.

(** How a run of [main] gets cut short: [sys.exit(code)], or an [OSError]
    nobody handles ([what] names the operation the file system refused). *)
Inductive abort :=
  | SystemExit (code : Z)
  | OSError (what : string).

Definition M (A : Type) : Type := world → (abort + A) * world.

Definition ret {A} (a : A) : M A := λ w, (inr a, w).

Definition bind {A B} (m : M A) (k : A → M B) : M B :=
  λ w, match m w with
       | (inl e, w') => (inl e, w')
       | (inr a, w') => k a w'
       end.

Definition raise {A} (e : abort) : M A := λ w, (inl e, w).

Notation "x <- m ;; k" := (bind m (λ x, k))
  (at level 100, m at next level, right associativity, only parsing).
Notation "m >> k" := (bind m (λ _, k))
  (at level 100, right associativity, only parsing).

(** [print(s, end=end_)] on standard output, [print(s)], and
    [print(s, file=sys.stderr)]. *)
Definition print_end (s end_ : string) : M unit :=
  λ w, (inr (), mkWorld (stdout w +:+ s +:+ end_) (stderr w) (fs w)).
Definition print (s : string) : M unit := print_end s Str.nl.
Definition eprint (s : string) : M unit :=
  λ w, (inr (), mkWorld (stdout w) (stderr w +:+ s +:+ Str.nl) (fs w)).

Definition get_fs : M (gmap (list string) node) := λ w, (inr (fs w), w).
Definition put_fs (f : gmap (list string) node) : M unit :=
  λ w, (inr (), mkWorld (stdout w) (stderr w) f).

Module FS.

(** [path.parent]. *)
Definition parent (p : list string) : list string := removelast p.

(** The non-empty prefixes of a path, shortest first. *)
Fixpoint prefixes (p : list string) : list (list string) :=
  match p with
  | [] => []
  | n :: r => [n] :: map (cons n) (prefixes r)
  end.

Definition is_file (f : gmap (list string) node) (p : list string) : bool :=
  match f !! p with Some (File _) => true | _ => false end.

Definition is_dir (f : gmap (list string) node) (p : list string) : bool :=
  match p, f !! p with
  | [], _ => true
  | _, Some Dir => true
  | _, _ => false
  end.

(** [path.exists()]. *)
Definition path_exists (f : gmap (list string) node) (p : list string) : bool :=
  match p, f !! p with
  | [], _ => true
  | _, Some _ => true
  | _, None => false
  end.

Definition add_dirs (ds : list (list string)) (f : gmap (list string) node)
    : gmap (list string) node :=
  foldr (λ d acc, <[d := Dir]> acc) f ds.

(** [d.mkdir(parents=True, exist_ok=True)]: refused when [d] or a
    directory above it is a regular file, else every missing directory on
    the way is created. *)
Definition mkdir_parents (d : list string) : M unit :=
  f <- get_fs ;;
  if existsb (is_file f) (prefixes d) then
    raise (OSError "mkdir")
  else put_fs (add_dirs (prefixes d) f).

(** [path.write_text(content)]. *)
Definition write_text (p : list string) (content : string) : M unit :=
  f <- get_fs ;;
  if negb (is_dir f (parent p)) then raise (OSError "write_text")
  else if is_dir f p then raise (OSError "write_text")
  else put_fs (<[p := File content]> f).

(** [with path.open("a") as f: f.write(content)]. *)
Definition append_text (p : list string) (content : string) : M unit :=
  f <- get_fs ;;
  if negb (is_dir f (parent p)) then raise (OSError "open")
  else if is_dir f p then raise (OSError "open")
  else match f !! p with
       | Some (File old) => put_fs (<[p := File (old +:+ content)]> f)
       | _ => put_fs (<[p := File content]> f)
       end.

End FS.

(** ** The output sink *)

Definition confirm_overwrite (path : Path) (force : bool) : M unit :=
  f <- get_fs ;;
  if FS.path_exists f (parts path) && negb force then
    eprint ("File " +:+ path_str path +:+ " already exists. Use --force to overwrite.") >>
    raise (SystemExit 1)
  else ret ().

Definition safe_write (path : Path) (content : string) (force : bool) : M unit :=
  confirm_overwrite path force >>
  FS.mkdir_parents (FS.parent (parts path)) >>
  FS.write_text (parts path) content >>
  eprint ("Wrote keys to " +:+ path_str path).

Definition safe_append (path : Path) (content : string) : M unit :=
  FS.mkdir_parents (FS.parent (parts path)) >>
  FS.append_text (parts path) content >>
  eprint ("Appended keys to " +:+ path_str path).

(** ** The result formatter *)

(** The body of the loop of [format_results], on the loop state
    [(combined, had_errors)]. *)
Definition format_step (inline : bool) (st : list string * bool)
    (result : FetchResult) : M (list string * bool) :=
  let '(combined, had_errors) := st in
  if Str.truthy_opt (error result) then
    eprint (user result +:+ ": " +:+ default "" (error result)) >>
    ret (combined, true)
  else if negb (Str.truthy_opt (keys result)) then ret (combined, had_errors)
  else
    let ks := default "" (keys result) in
    if inline then
      let lines :=
        map (λ line, line +:+ " " +:+ user result)
            (filter (λ line, Str.truthy (Str.strip line) = true) (Str.splitlines ks)) in
      ret (combined ++ lines, had_errors)
    else
      ret (combined ++ ["# " +:+ user result +:+ Str.nl +:+ ks +:+ Str.nl], had_errors).

Fixpoint format_loop (inline : bool) (results : list FetchResult)
    (st : list string * bool) : M (list string * bool) :=
  match results with
  | [] => ret st
  | result :: rest =>
      st' <- format_step inline st result ;;
      format_loop inline rest st'
  end.

Definition format_results (results : list FetchResult) (inline : bool)
    : M (string * bool) :=
  st <- format_loop inline results ([], false) ;;
  ret (Str.strip (Str.join Str.nl st.1) +:+ Str.nl, st.2).

(** ** JSON output: [json.dumps(data, indent=2)] *)

Module Json.

(** The values [main] serialises. *)
Inductive value :=
  | Null
  | Str (s : string)
  | Arr (items : list value)
  | Obj (fields : list (string * value)).

Definition quote : ascii := ascii_of_N 34.
Definition backslash : ascii := ascii_of_N 92.

Definition hexdigit (n : N) : ascii :=
  if (n <? 10)%N then ascii_of_N (48 + n) else ascii_of_N (87 + n).

(** One character of a string, as [ensure_ascii] writes it. *)
Definition escape_char (c : ascii) : string :=
  let n := Str.code c in
  if (n =? 34)%N then String backslash (String quote "")
  else if (n =? 92)%N then String backslash (String backslash "")
  else if (n =? 10)%N then String backslash "n"
  else if (n =? 13)%N then String backslash "r"
  else if (n =? 9)%N then String backslash "t"
  else if (n =? 8)%N then String backslash "b"
  else if (n =? 12)%N then String backslash "f"
  else if (32 <=? n)%N && (n <=? 126)%N then String c ""
  else String backslash
         ("u00" +:+ String (hexdigit (n / 16)) (String (hexdigit (n mod 16)) "")).

Fixpoint escape (s : string) : string :=
  match s with
  | "" => ""
  | String c r => escape_char c +:+ escape r
  end.

Definition encode_str (s : string) : string :=
  String quote (escape s +:+ String quote "").

Fixpoint spaces (n : nat) : string :=
  match n with O => "" | S n => String " " (spaces n) end.

(** A line break followed by the indentation of nesting depth [level]. *)
Definition newline_indent (level : nat) : string :=
  Str.nl +:+ spaces (2 * level).

Fixpoint encode (level : nat) (v : value) : string :=
  match v with
  | Null => "null"
  | Str s => encode_str s
  | Arr [] => "[]"
  | Arr items =>
      "[" +:+ newline_indent (S level)
      +:+ Str.join ("," +:+ newline_indent (S level)) (map (encode (S level)) items)
      +:+ newline_indent level +:+ "]"
  | Obj [] => "{}"
  | Obj fields =>
      "{" +:+ newline_indent (S level)
      +:+ Str.join ("," +:+ newline_indent (S level))
            (map (λ kv, encode_str kv.1 +:+ ": " +:+ encode (S level) kv.2) fields)
      +:+ newline_indent level +:+ "}"
  end.

Definition dumps (v : value) : string := encode 0 v.

Definition of_option (o : option string) : value :=
  match o with None => Null | Some s => Str s end.

End Json.

(** ** The entry point *)

Record args := mkArgs {
  users : list string;
  inline_comments : bool;
  json : bool;
  append : bool;
  output : option string;
  force : bool
}.

(** The environment of a run: what request number [i] runs into, the order
    in which the requests complete, and [Path(s).expanduser()]. *)
Record env := mkEnv {
  net : nat → exchange;
  completion : list nat;
  expanduser : string → Path
}.

(** The entry of the JSON array for one result. *)
Definition json_entry (r : FetchResult) : Json.value :=
  Json.Obj
    [("user", Json.Str (user r));
     ("keys", Json.Arr (map Json.Str
                (if Str.truthy_opt (keys r)
                 then Str.splitlines (default "" (keys r)) else [])));
     ("error", Json.of_option (error r))].

(** [main] after [results = await fetch_all(args.users)]. *)
Definition main_with (e : env) (a : args) (results : list FetchResult) : M unit :=
  if json a then
    let data := map json_entry results in
    print (Json.dumps (Json.Arr data))
  else
    formatted <- format_results results (inline_comments a) ;;
    let '(combined, had_errors) := formatted in
    if negb (Str.truthy (Str.strip combined)) then eprint "No keys fetched."
    else
      (if had_errors : bool then eprint "" else ret ()) >>
      if append a then
        let target :=
          if Str.truthy_opt (output a) then expanduser e (default "" (output a))
          else expanduser e "~/.ssh/authorized_keys" in
        safe_append target combined
      else if Str.truthy_opt (output a) then
        safe_write (expanduser e (default "" (output a))) combined (force a)
      else print_end combined "".

(** A run of the program from the world [w]: [None] when [fetch_all] never
    returns, else how [main] ended and the world it left. *)
Definition main (e : env) (a : args) (w : world) : option ((abort + unit) * world) :=
  match fetch_all (net e) (completion e) (users a) with
  | None => None
  | Some results => Some (main_with e a results w)
  end.

(** The exit code of the process. *)
Definition exit_code (r : abort + unit) : Z :=
  match r with
  | inr _ => 0
  | inl (SystemExit code) => code
  | inl (OSError _) => 1
  end.


(** ** Notions used to state the properties *)

(** A string made of whitespace only (the empty string included). *)
Fixpoint all_space (s : string) : bool :=
  match s with
  | "" => true
  | String c r => Str.isspace c && all_space r
  end.

(** A result the formatter keeps: no error to report. *)
Definition no_error (r : FetchResult) : Prop := Str.truthy_opt (error r) = false.

Global Instance no_error_dec r : Decision (no_error r).
Proof. unfold no_error. apply _. Defined.

(** The diagnostic line of a result that carries an error. *)
Definition diagnostic (r : FetchResult) : string :=
  if Str.truthy_opt (error r)
  then user r +:+ ": " +:+ default "" (error r) +:+ Str.nl
  else "".

Fixpoint diagnostics (results : list FetchResult) : string :=
  match results with
  | [] => ""
  | r :: rest => diagnostic r +:+ diagnostics rest
  end.

(** Text mode: the header comment and the raw key block of one user. *)
Definition header_block (r : FetchResult) : list string :=
  match keys r with
  | Some (String c k) => ["# " +:+ user r +:+ Str.nl +:+ String c k +:+ Str.nl]
  | _ => []
  end.

(** Inline mode: every non-blank key line, followed by a space and the
    user name. *)
Definition inline_lines (r : FetchResult) : list string :=
  match keys r with
  | Some k =>
      map (λ line, line +:+ " " +:+ user r)
          (filter (λ line, all_space line = false) (Str.splitlines k))
  | None => []
  end.

(** The per-user blocks of the payload, in the order of the results. *)
Definition blocks (inline : bool) (results : list FetchResult) : list string :=
  concat (map (if inline then inline_lines else header_block)
              (filter no_error results)).

(** Joined, trimmed, and closed by one line feed. *)
Definition normalized (items : list string) : string :=
  Str.strip (Str.join Str.nl items) +:+ Str.nl.

(** The entry of the JSON array the specification describes for the
    request for [u] that gave [r]. *)
Definition entry_of (u : string) (r : FetchResult) : Json.value :=
  Json.Obj
    [("user", Json.Str u);
     ("keys", Json.Arr (map Json.Str
                (match keys r with Some k => Str.splitlines k | None => [] end)));
     ("error", match error r with None => Json.Null | Some e => Json.Str e end)].

(** The result of request number [i], for the user [u]. *)
Definition result_of (e : env) (i : nat) (u : string) : FetchResult :=
  fetch_keys (net e i) u.

(** Every request completes, once. *)
Definition all_complete (e : env) (a : args) : Prop :=
  completion e ≡ₚ seq 0 (length (users a)).

(** The file system lets the program create the directories above [p] and
    write to [p]: no regular file stands where a directory is needed, and
    [p] is not a directory. *)
Definition accepts (f : gmap (list string) node) (p : list string) : Prop :=
  existsb (FS.is_file f) (FS.prefixes (FS.parent p)) = false ∧ FS.is_dir f p = false.

(** Whether some result carries an error to report. *)
Definition any_error (results : list FetchResult) : bool :=
  existsb (λ r, Str.truthy_opt (error r)) results.

(** The two output streams after the formatter ran on [results] from [w]. *)
Definition after_diagnostics (results : list FetchResult) (w : world) : world :=
  mkWorld (stdout w) (stderr w +:+ diagnostics results) (fs w).

(** The world in which the payload is delivered: the diagnostics are out,
    and an empty line follows them when there was an error. *)
Definition before_sink (results : list FetchResult) (w : world) : world :=
  mkWorld (stdout w)
          (stderr w +:+ diagnostics results
             +:+ (if any_error results then Str.nl else ""))
          (fs w).

(** The content of the regular file at [p], if there is one. *)
Definition content_of (f : gmap (list string) node) (p : list string) : option string :=
  match f !! p with Some (File c) => Some c | _ => None end.

(** The file [main] appends to. *)
Definition append_target (e : env) (a : args) : Path :=
  match output a with
  | Some (String c out) => expanduser e (String c out)
  | _ => expanduser e "~/.ssh/authorized_keys"
  end.

(** The same arguments, with another [--force]. *)
Definition set_force (b : bool) (a : args) : args :=
  mkArgs (users a) (inline_comments a) (json a) (append a) (output a) b.

(** ** Concrete runs *)

(** The start of a run: nothing printed yet, an empty file system. *)
Definition world0 : world := mkWorld "" "" ∅.

(** A home directory, and paths given relative to the working directory. *)
Definition expanduser_demo (s : string) : Path :=
  if String.eqb s "~/.ssh/authorized_keys"
  then mkPath "/home/me/.ssh/authorized_keys" ["home"; "me"; ".ssh"; "authorized_keys"]
  else if String.eqb s "backup/keys.txt"
  then mkPath "backup/keys.txt" ["home"; "me"; "backup"; "keys.txt"]
  else mkPath s ["home"; "me"; s].

(** Six requests: keys, an unknown user, a server error, a timeout, a blank
    body, a connection failure. *)
Definition net_demo (i : nat) : exchange :=
  match i with
  | 0%nat => Response 200 (inr ("ssh-rsa AAA... " +:+ Str.nl))
  | 1%nat => Response 404 (inr "Not Found")
  | 2%nat => Response 503 (inr "")
  | 3%nat => GetRaises TimeoutError
  | 4%nat => Response 200 (inr (" " +:+ Str.nl))
  | _ => GetRaises (OtherException "Cannot connect to host github.com:443")
  end.

(** [s] between double quotes. *)
Definition quoted (s : string) : string :=
  String Json.quote (s +:+ String Json.quote "").

(** alice has a key, ghost404 does not exist; ghost404 answers first. *)
Definition env_demo : env := mkEnv net_demo [1; 0]%nat expanduser_demo.

(** A single request, for a user that does not exist. *)
Definition env_ghost : env :=
  mkEnv (λ _, Response 404 (inr "Not Found")) [0%nat] expanduser_demo.

(** A single request, for alice, who has a key. *)
Definition env_alice : env := mkEnv net_demo [0%nat] expanduser_demo.

(** [ghkeys ghost404 --output keys.txt], and the same with [--append]. *)
Definition args_ghost_write : args :=
  mkArgs ["ghost404"] false false false (Some "keys.txt") false.
Definition args_ghost_append : args :=
  mkArgs ["ghost404"] false false true (Some "keys.txt") false.

(** [ghkeys alice --output backup/keys.txt], and the same with [--append]. *)
Definition args_alice_write : args :=
  mkArgs ["alice"] false false false (Some "backup/keys.txt") false.
Definition args_alice_append : args :=
  mkArgs ["alice"] false false true (Some "backup/keys.txt") false.

(** [ghkeys alice --output keys.txt], with and without [--force], and
    [ghkeys alice --append --output keys.txt]. *)
Definition args_alice_keys (force : bool) : args :=
  mkArgs ["alice"] false false false (Some "keys.txt") force.
Definition args_alice_keys_append : args :=
  mkArgs ["alice"] false false true (Some "keys.txt") false.

(** A file system with a home directory and a file [keys.txt] in it. *)
Definition fs_demo : gmap (list string) node :=
  <[["home"; "me"; "keys.txt"] := File "old"]>
    (<[["home"; "me"] := Dir]> (<[["home"] := Dir]> ∅)).

(** The same, with a regular file where the directory [backup] would be. *)
Definition fs_blocked : gmap (list string) node :=
  <[["home"; "me"; "backup"] := File "x"]> fs_demo.

Definition world_demo : world := mkWorld "" "" fs_demo.
Definition world_blocked : world := mkWorld "" "" fs_blocked.

(** ** The endpoint, and further notions *)

(** [GITHUB_KEYS_URL.format(user=user)]: the address [fetch_keys] asks. *)
Definition GITHUB_KEYS_URL (user : string) : string :=
  "https://github.com/" +:+ user +:+ ".keys".

(** Whether a line boundary of [str.splitlines] occurs in [s]. *)
Fixpoint has_linebreak (s : string) : bool :=
  match s with
  | "" => false
  | String c r => Str.is_linebreak c || has_linebreak r
  end.

(** Whether a whitespace character occurs in [s]. *)
Fixpoint has_space (s : string) : bool :=
  match s with
  | "" => false
  | String c r => Str.isspace c || has_space r
  end.

(** A text of printable ASCII characters and line feeds only. *)
Definition plain_char (c : ascii) : bool :=
  let n := Str.code c in ((32 <=? n) && (n <=? 126) || (n =? 10))%N.

Fixpoint plain (s : string) : bool :=
  match s with
  | "" => true
  | String c r => plain_char c && plain r
  end.



(** ** The primitives on examples *)

Example strip_example : Str.strip ("  ssh-rsa AAA... " +:+ Str.nl) = "ssh-rsa AAA...".
Proof. reflexivity. Qed.

Example strip_blank_example : Str.strip (" " +:+ Str.nl +:+ " ") = "".
Proof. reflexivity. Qed.

Example splitlines_example :
  Str.splitlines ("a" +:+ String Str.CR Str.nl +:+ Str.nl +:+ "b" +:+ Str.nl)
  = ["a"; ""; "b"].
Proof. reflexivity. Qed.

Example splitlines_blank_example : Str.splitlines Str.nl = [""].
Proof. reflexivity. Qed.

Example join_example : Str.join ", " ["a"; "b"; "c"] = "a, b, c".
Proof. reflexivity. Qed.

Example dumps_example :
  Json.dumps
    (Json.Arr
       [entry_of "alice" (mkFetchResult "alice" (Some "ssh-rsa AAA...") None);
        entry_of "ghost404" (mkFetchResult "ghost404" None (Some "User not found"))])
  = Str.join Str.nl
      ["[";
       "  {";
       "    " +:+ quoted "user" +:+ ": " +:+ quoted "alice" +:+ ",";
       "    " +:+ quoted "keys" +:+ ": [";
       "      " +:+ quoted "ssh-rsa AAA...";
       "    ],";
       "    " +:+ quoted "error" +:+ ": null";
       "  },";
       "  {";
       "    " +:+ quoted "user" +:+ ": " +:+ quoted "ghost404" +:+ ",";
       "    " +:+ quoted "keys" +:+ ": [],";
       "    " +:+ quoted "error" +:+ ": " +:+ quoted "User not found";
       "  }";
       "]"].
Proof. reflexivity. Qed.

Example escape_example :
  Json.escape ("a" +:+ String Json.quote "b" +:+ Str.nl +:+ String (ascii_of_N 233) "")
  = "a" +:+ String Json.backslash (String Json.quote "b")
    +:+ String Json.backslash "n" +:+ String Json.backslash "u00e9".
Proof. reflexivity. Qed.

(** The run of the scenario with [--inline-comments]: no header, the user
    name after the key. *)
Example inline_scenario_example :
  main env_demo (mkArgs ["alice"; "ghost404"] true false false None false) world_demo
  = Some (inr (),
          mkWorld ("ssh-rsa AAA... alice" +:+ Str.nl)
                  ("ghost404: User not found" +:+ Str.nl +:+ Str.nl)
                  fs_demo).
Proof. vm_compute. reflexivity. Qed.

(** ** Facts about the text primitives *)

#[local] Arguments String.append !_ _ / : simpl nomatch.

Section text_facts.

Implicit Types (s t : string) (c : ascii).

Lemma app_nil_r s : s +:+ "" = s.
Proof. induction s as [|c s IH]; simpl; congruence. Qed.

Lemma app_assoc s t u : (s +:+ t) +:+ u = s +:+ (t +:+ u).
Proof. induction s as [|c s IH]; simpl; congruence. Qed.

Lemma truthy_true s : Str.truthy s = true ↔ s ≠ "".
Proof. destruct s; simpl; split; congruence. Qed.

Lemma rstrip_empty s : Str.rstrip s = "" ↔ all_space s = true.
Proof.
  induction s as [|c s IH]; simpl; [done|].
  destruct (Str.isspace c); simpl; [|split; congruence].
  destruct (Str.rstrip s) eqn:E; simpl.
  - split; [intros _; by apply IH | done].
  - split; [done|]. intros H. apply IH in H. done.
Qed.

Lemma lstrip_all_space s : all_space (Str.lstrip s) = all_space s.
Proof.
  induction s as [|c s IH]; simpl; [done|].
  destruct (Str.isspace c) eqn:E; simpl; [done|]. by rewrite E.
Qed.

Lemma strip_empty s : Str.strip s = "" ↔ all_space s = true.
Proof. unfold Str.strip. by rewrite rstrip_empty, lstrip_all_space. Qed.

Lemma head_lstrip s c : Str.head (Str.lstrip s) = Some c → Str.isspace c = false.
Proof.
  induction s as [|c' s IH]; simpl; [done|].
  destruct (Str.isspace c') eqn:E; [done|]. simpl. by intros [= <-].
Qed.

Lemma head_rstrip s c : Str.head (Str.rstrip s) = Some c → Str.head s = Some c.
Proof.
  destruct s as [|c' s]; simpl; [done|].
  by destruct (Str.isspace c' && negb (Str.truthy (Str.rstrip s))).
Qed.

Lemma last_rstrip s c : Str.last (Str.rstrip s) = Some c → Str.isspace c = false.
Proof.
  induction s as [|c' s IH]; simpl; [done|].
  destruct (Str.rstrip s) as [|c'' r] eqn:E; simpl.
  - rewrite andb_true_r. destruct (Str.isspace c') eqn:E'; simpl; congruence.
  - rewrite andb_false_r. simpl. done.
Qed.

Lemma head_strip s c : Str.head (Str.strip s) = Some c → Str.isspace c = false.
Proof. intros H. by eapply head_lstrip, head_rstrip. Qed.

Lemma last_strip s c : Str.last (Str.strip s) = Some c → Str.isspace c = false.
Proof. apply last_rstrip. Qed.

Lemma last_snoc s c : Str.last (s +:+ String c "") = Some c.
Proof.
  induction s as [|c' s IH]; simpl; [done|].
  destruct (s +:+ String c "") eqn:E; [by destruct s|done].
Qed.

End text_facts.

(** ** The dispatcher fills every slot with the result of its own request *)

Section dispatcher_facts.

Variables (users : list string) (net : nat → exchange).

Lemma length_complete slots i :
  length (complete users net slots i) = length slots.
Proof. unfold complete. destruct (users !! i); by rewrite ?length_insert. Qed.

Lemma lookup_complete slots i j u :
  length slots = length users → users !! j = Some u →
  complete users net slots i !! j =
    if decide (i = j) then Some (Some (fetch_keys (net j) u)) else slots !! j.
Proof.
  intros Hlen Hj. unfold complete. case_decide as Hij.
  - subst i. rewrite Hj. apply list_lookup_insert_eq.
    rewrite Hlen. by eapply lookup_lt_Some.
  - destruct (users !! i); [by apply list_lookup_insert_ne|done].
Qed.

Lemma lookup_foldl_complete completion slots j u :
  length slots = length users → users !! j = Some u →
  foldl (complete users net) slots completion !! j =
    if decide (j ∈ completion) then Some (Some (fetch_keys (net j) u))
    else slots !! j.
Proof.
  revert slots. induction completion as [|i rest IH]; intros slots Hlen Hj.
  - by rewrite decide_False by apply not_elem_of_nil.
  - cbn [foldl]. rewrite IH; [|by rewrite length_complete|done].
    rewrite (lookup_complete _ _ _ u); [|done..].
    destruct (decide (j ∈ rest)) as [Hin|Hnin].
    { rewrite decide_True; [done|]. apply elem_of_cons. by right. }
    destruct (decide (i = j)) as [->|Hne].
    { rewrite decide_True; [done|]. apply elem_of_cons. by left. }
    rewrite decide_False; [done|]. apply not_elem_of_cons. by split.
Qed.

Lemma length_foldl_complete completion slots :
  length (foldl (complete users net) slots completion) = length slots.
Proof.
  revert slots. induction completion as [|i rest IH]; intros slots; simpl; [done|].
  by rewrite IH, length_complete.
Qed.

Lemma gather_filled (rs : list FetchResult) : gather (Some <$> rs) = Some rs.
Proof. induction rs as [|r rs IH]; [done|]. rewrite fmap_cons. cbn [gather]. by rewrite IH. Qed.

(** Whatever the order of completion, and whatever the other requests ran
    into, [fetch_all] returns, for every request, the result of
    [fetch_keys] on that request's own exchange. *)
Lemma fetch_all_spec completion :
  completion ≡ₚ seq 0 (length users) →
  fetch_all net completion users = Some (imap (λ i u, fetch_keys (net i) u) users).
Proof.
  intros Hperm. unfold fetch_all, run_loop.
  rewrite <- gather_filled. f_equal. apply list_eq. intros j.
  rewrite list_lookup_fmap, list_lookup_imap.
  destruct (users !! j) as [u|] eqn:Hj; simpl.
  - rewrite (lookup_foldl_complete _ _ _ u); [|by rewrite length_replicate|done].
    rewrite decide_True; [done|].
    rewrite Hperm. apply elem_of_seq. apply lookup_lt_Some in Hj. lia.
  - apply lookup_ge_None. rewrite length_foldl_complete, length_replicate.
    by apply lookup_ge_None.
Qed.

End dispatcher_facts.

(** ** The fetcher *)

(** C1. [fetch_keys] is total: whatever the request runs into, a
    [FetchResult] comes back.  Status 404 gives the error "User not found";
    any other status but 200 gives "HTTP " followed by the status; status 200
    with an empty or whitespace-only body gives "No keys found"; status 200
    with a body that is not empty once trimmed gives the trimmed body as keys
    and no error; a timeout (of the request or of reading the body) gives
    "Request timed out"; any other failure gives its description.  So, in
    [fetch_all], every request gets the result of its own exchange, whatever
    the other requests ran into. *)
Theorem fetch_keys_contains_failures (u : string) :
  (∀ body, fetch_keys (Response 404 body) u
           = mkFetchResult u None (Some "User not found"))
  ∧ (∀ status body, status ≠ 404 → status ≠ 200 →
       fetch_keys (Response status body) u
       = mkFetchResult u None (Some ("HTTP " +:+ pretty status)))
  ∧ (∀ raw, all_space raw = true →
       fetch_keys (Response 200 (inr raw)) u
       = mkFetchResult u None (Some "No keys found"))
  ∧ (∀ raw, Str.strip raw ≠ "" →
       fetch_keys (Response 200 (inr raw)) u
       = mkFetchResult u (Some (Str.strip raw)) None)
  ∧ fetch_keys (GetRaises TimeoutError) u
    = mkFetchResult u None (Some "Request timed out")
  ∧ fetch_keys (Response 200 (inl TimeoutError)) u
    = mkFetchResult u None (Some "Request timed out")
  ∧ (∀ descr, fetch_keys (GetRaises (OtherException descr)) u
              = mkFetchResult u None (Some descr))
  ∧ (∀ descr, fetch_keys (Response 200 (inl (OtherException descr))) u
              = mkFetchResult u None (Some descr))
  ∧ (∀ users net completion,
       completion ≡ₚ seq 0 (length users) →
       fetch_all net completion users
       = Some (imap (λ i v, fetch_keys (net i) v) users)).
Proof.
  repeat split; try done.
  - intros status body H404 H200. unfold fetch_keys.
    rewrite decide_False by done. by rewrite decide_True.
  - intros raw Hraw. apply strip_empty in Hraw. simpl. by rewrite Hraw.
  - intros raw Hraw. simpl. by destruct (Str.strip raw).
  - intros users net completion. apply fetch_all_spec.
Qed.

Lemma fetch_keys_contains_failures_witness :
  fetch_keys (Response 503 (inr "")) "carol"
    = mkFetchResult "carol" None (Some "HTTP 503")
  ∧ fetch_keys (Response 200 (inr (" " +:+ Str.nl))) "carol"
    = mkFetchResult "carol" None (Some "No keys found")
  ∧ fetch_keys (Response 200 (inr ("ssh-rsa AAA... " +:+ Str.nl))) "carol"
    = mkFetchResult "carol" (Some "ssh-rsa AAA...") None
  ∧ fetch_all net_demo [5; 2; 0; 4; 1; 3]%nat ["a"; "b"; "c"; "d"; "e"; "f"]
    = Some (imap (λ i v, fetch_keys (net_demo i) v) ["a"; "b"; "c"; "d"; "e"; "f"]).
Proof.
  destruct (fetch_keys_contains_failures "carol")
    as (_ & Hstatus & Hblank & Hkeys & _ & _ & _ & _ & Hall).
  split; [|split; [|split]].
  - apply (Hstatus 503 (inr "")); lia.
  - apply (Hblank (" " +:+ Str.nl)). reflexivity.
  - apply (Hkeys ("ssh-rsa AAA... " +:+ Str.nl)). vm_compute. discriminate.
  - apply (Hall ["a"; "b"; "c"; "d"; "e"; "f"] net_demo). vm_compute.
    compute_done.
Defined.

(** C9. A result of [fetch_keys] has exactly one of [keys] and [error]
    set: either keys and no error, or an error and no keys.  Keys that are
    set are never empty, and a 200 response whose body trims to the empty
    string is the error "No keys found". *)
Theorem fetch_keys_keys_xor_error (x : exchange) (u : string) :
  (is_Some (keys (fetch_keys x u)) ∧ error (fetch_keys x u) = None
   ∨ keys (fetch_keys x u) = None ∧ is_Some (error (fetch_keys x u)))
  ∧ keys (fetch_keys x u) ≠ Some ""
  ∧ (∀ raw, x = Response 200 (inr raw) → Str.strip raw = "" →
       keys (fetch_keys x u) = None ∧ error (fetch_keys x u) = Some "No keys found").
Proof.
  assert (∀ e, keys (on_exception u e) = None ∧ is_Some (error (on_exception u e)))
    as Hexn by (intros []; simpl; eauto).
  destruct x as [e|status body]; simpl.
  { destruct (Hexn e) as [Hk He]. rewrite Hk. split; [|split]; [by right|done|done]. }
  destruct (decide (status = 404)) as [->|H404]; simpl.
  { split; [|split]; [right; eauto|done|done]. }
  destruct (decide (status ≠ 200)) as [H200|H200]; simpl.
  { split; [|split]; [right; eauto|done|]. intros raw [= Hs _]. by destruct H200. }
  destruct body as [e|raw]; simpl.
  { destruct (Hexn e) as [Hk He]. rewrite Hk. split; [|split]; [by right|done|done]. }
  destruct (Str.strip raw) as [|c k] eqn:Hraw; simpl.
  - split; [|split]; [right; eauto|done|done].
  - split; [|split]; [left; eauto|done|]. intros raw' [= _ <-]. congruence.
Qed.

Lemma fetch_keys_keys_xor_error_witness :
  keys (fetch_keys (Response 200 (inr (" " +:+ Str.nl))) "dave") = None
  ∧ error (fetch_keys (Response 200 (inr (" " +:+ Str.nl))) "dave")
    = Some "No keys found".
Proof.
  destruct (fetch_keys_keys_xor_error (Response 200 (inr (" " +:+ Str.nl))) "dave")
    as (_ & _ & Hblank).
  apply (Hblank (" " +:+ Str.nl)); reflexivity.
Defined.

(** ** The dispatcher *)

(** C2. Whatever the order in which the requests complete, and whatever
    each of them runs into, [fetch_all] returns as many results as there are
    user names, and the [i]-th result is the one for the [i]-th name
    (duplicates included). *)
Theorem fetch_all_in_input_order (users : list string) (net : nat → exchange)
    (completion : list nat) :
  completion ≡ₚ seq 0 (length users) →
  ∃ rs, fetch_all net completion users = Some rs
        ∧ length rs = length users
        ∧ map user rs = users
        ∧ ∀ i u, users !! i = Some u → user <$> rs !! i = Some u.
Proof.
  intros Hperm. eexists. split; [by apply fetch_all_spec|].
  assert (∀ i v, user (fetch_keys (net i) v) = v) as Huser.
  { intros i v. unfold fetch_keys.
    destruct (net i) as [[]|status [[]|raw]]; simpl; repeat case_decide; simpl;
      try done; by destruct (Str.truthy _). }
  split; [by rewrite length_imap|]. split.
  - apply list_eq. intros i. rewrite list_lookup_fmap, list_lookup_imap.
    destruct (users !! i); simpl; [by rewrite Huser|done].
  - intros i u Hi. rewrite list_lookup_imap, Hi. simpl. by rewrite Huser.
Qed.

Lemma fetch_all_in_input_order_witness :
  ∃ rs, fetch_all net_demo [3; 0; 2; 1]%nat ["alice"; "bob"; "alice"; "carol"] = Some rs
        ∧ length rs = 4%nat
        ∧ map user rs = ["alice"; "bob"; "alice"; "carol"]
        ∧ ∀ i u, ["alice"; "bob"; "alice"; "carol"] !! i = Some u →
                 user <$> rs !! i = Some u.
Proof.
  apply (fetch_all_in_input_order ["alice"; "bob"; "alice"; "carol"] net_demo
           [3; 0; 2; 1]%nat).
  vm_compute. compute_done.
Defined.

(** ** The formatter *)

Section formatter_facts.

Lemma truthy_strip line : Str.truthy (Str.strip line) = true ↔ all_space line = false.
Proof.
  rewrite truthy_true, <- not_true_iff_false. by rewrite strip_empty.
Qed.

Lemma code_filter_lines k :
  filter (λ line, Str.truthy (Str.strip line) = true) (Str.splitlines k)
  = filter (λ line, all_space line = false) (Str.splitlines k).
Proof. apply list_filter_iff. intros line. apply truthy_strip. Qed.

Lemma blocks_cons inline r rest :
  blocks inline (r :: rest) =
    (if Str.truthy_opt (error r) then []
     else if inline then inline_lines r else header_block r)
    ++ blocks inline rest.
Proof.
  unfold blocks. destruct (Str.truthy_opt (error r)) eqn:E.
  - rewrite filter_cons_False; [done|]. unfold no_error. congruence.
  - rewrite filter_cons_True by done. by destruct inline.
Qed.

(** What one turn of the loop does, in terms of the notions above. *)
Lemma format_step_spec inline combined had r w :
  format_step inline (combined, had) r w =
    (inr (combined ++ blocks inline [r], had || Str.truthy_opt (error r)),
     after_diagnostics [r] w).
Proof.
  unfold format_step, after_diagnostics. rewrite blocks_cons.
  unfold blocks, diagnostics, diagnostic. simpl.
  destruct w as [out err f]. simpl.
  destruct (Str.truthy_opt (error r)) eqn:Herr; simpl.
  { unfold bind, eprint, ret. simpl.
    by rewrite !app_nil_r, orb_true_r, !app_assoc, ?List.app_nil_r. }
  rewrite !app_nil_r, orb_false_r, ?List.app_nil_r.
  destruct (keys r) as [[|c k]|] eqn:Hkeys; simpl.
  - unfold ret, inline_lines, header_block. rewrite Hkeys.
    destruct inline; by rewrite ?List.app_nil_r.
  - destruct inline; unfold ret, inline_lines, header_block; rewrite Hkeys.
    + by rewrite code_filter_lines.
    + done.
  - unfold ret, inline_lines, header_block. rewrite Hkeys.
    destruct inline; by rewrite ?List.app_nil_r.
Qed.

Lemma format_loop_spec inline results combined had w :
  format_loop inline results (combined, had) w =
    (inr (combined ++ blocks inline results, had || any_error results),
     after_diagnostics results w).
Proof.
  revert combined had w.
  induction results as [|r rest IH]; intros combined had w.
  - destruct w. unfold after_diagnostics, blocks. simpl.
    by rewrite List.app_nil_r, orb_false_r, app_nil_r.
  - cbn [format_loop]. unfold bind. rewrite format_step_spec, IH.
    rewrite (blocks_cons inline r rest). rewrite (blocks_cons inline r []).
    unfold blocks at 1. simpl. rewrite !List.app_nil_r.
    unfold after_diagnostics. simpl.
    by rewrite <- List.app_assoc, orb_assoc, !app_nil_r, app_assoc.
Qed.

Lemma format_results_spec results inline w :
  format_results results inline w =
    (inr (normalized (blocks inline results), any_error results),
     after_diagnostics results w).
Proof. unfold format_results, bind. by rewrite format_loop_spec. Qed.

End formatter_facts.

(** C5. In either text mode the payload of [format_results] is the
    per-user blocks joined by line feeds, trimmed of leading and trailing
    whitespace, followed by one line feed: what comes before that final
    line feed neither starts nor ends with a whitespace character (so the
    payload ends in exactly one line feed). *)
Theorem format_results_normalized (results : list FetchResult) (inline : bool)
    (w : world) :
  ∃ body had w',
    format_results results inline w = (inr (body +:+ Str.nl, had), w')
    ∧ body = Str.strip (Str.join Str.nl (blocks inline results))
    ∧ (∀ c, Str.head body = Some c → Str.isspace c = false)
    ∧ (∀ c, Str.last body = Some c → Str.isspace c = false)
    ∧ Str.last (body +:+ Str.nl) = Some Str.LF.
Proof.
  eexists _, _, _. split; [apply format_results_spec|].
  split; [done|]. split; [apply head_strip|]. split; [apply last_strip|].
  apply last_snoc.
Qed.

(** C6. With inline annotation the formatter emits, for every result
    without an error, each non-blank line of its key block followed by one
    space and the user name, and nothing else: blank lines are left out, and
    no header is added (an emitted line starts with '#' only when the key
    line it comes from does).  The payload is these lines, joined and
    normalised.  On results as the fetcher builds them (keys only without an
    error) every result that carries keys contributes its lines. *)
Theorem inline_annotation (results : list FetchResult) (w : world) :
  format_loop true results ([], false) w
    = (inr (blocks true results, any_error results), after_diagnostics results w)
  ∧ format_results results true w
    = (inr (normalized (blocks true results), any_error results),
       after_diagnostics results w)
  ∧ (∀ x, x ∈ blocks true results ↔
       ∃ r k line, r ∈ results ∧ no_error r ∧ keys r = Some k
                   ∧ line ∈ Str.splitlines k ∧ all_space line = false
                   ∧ x = line +:+ " " +:+ user r)
  ∧ (∀ x, x ∈ blocks true results → Str.head x = Some "#"%char →
       ∃ r k line, r ∈ results ∧ keys r = Some k
                   ∧ line ∈ Str.splitlines k ∧ Str.head line = Some "#"%char)
  ∧ (Forall (λ r, is_Some (keys r) → error r = None) results →
       blocks true results = concat (map inline_lines results)).
Proof.
  assert (∀ x, x ∈ blocks true results ↔
       ∃ r k line, r ∈ results ∧ no_error r ∧ keys r = Some k
                   ∧ line ∈ Str.splitlines k ∧ all_space line = false
                   ∧ x = line +:+ " " +:+ user r) as Hmem.
  { intros x. unfold blocks. rewrite list_elem_of_In, in_concat. split.
    - intros (ls & Hls & Hx). apply in_map_iff in Hls as (r & <- & Hr).
      apply list_elem_of_In, list_elem_of_filter in Hr as [Hno Hr].
      unfold inline_lines in Hx. destruct (keys r) as [k|] eqn:Hk; [|done].
      apply in_map_iff in Hx as (line & <- & Hline).
      apply list_elem_of_In, list_elem_of_filter in Hline as [Hblank Hline].
      by exists r, k, line.
    - intros (r & k & line & Hr & Hno & Hk & Hline & Hblank & ->).
      exists (inline_lines r). split.
      + apply in_map_iff. exists r. split; [done|].
        apply list_elem_of_In, list_elem_of_filter. by split.
      + unfold inline_lines. rewrite Hk. apply in_map_iff. exists line.
        split; [done|]. apply list_elem_of_In, list_elem_of_filter. by split. }
  split; [by rewrite format_loop_spec|]. split; [apply format_results_spec|].
  split; [exact Hmem|]. split.
  - intros x Hx Hhash. apply Hmem in Hx
      as (r & k & line & Hr & _ & Hk & Hline & Hblank & ->).
    exists r, k, line. repeat (split; [done|]).
    destruct line as [|c line]; [done|]. exact Hhash.
  - clear Hmem. unfold blocks. induction 1 as [|r rest Hr _ IH]; [done|].
    destruct (Str.truthy_opt (error r)) eqn:Herr.
    + rewrite filter_cons_False by (unfold no_error; congruence).
      assert (inline_lines r = []) as Hnone.
      { unfold inline_lines. destruct (keys r) as [k|]; [|done].
        rewrite Hr in Herr by eauto. done. }
      rewrite IH. simpl. by rewrite Hnone.
    + rewrite filter_cons_True by done. simpl. by rewrite IH.
Qed.

Lemma inline_annotation_witness :
  blocks true [mkFetchResult "alice" (Some ("ssh-rsa AAA" +:+ Str.nl +:+ " " +:+ Str.nl +:+ "ssh-ed25519 BBB")) None;
               mkFetchResult "ghost404" None (Some "User not found")]
  = concat (map inline_lines
      [mkFetchResult "alice" (Some ("ssh-rsa AAA" +:+ Str.nl +:+ " " +:+ Str.nl +:+ "ssh-ed25519 BBB")) None;
       mkFetchResult "ghost404" None (Some "User not found")]).
Proof.
  apply (inline_annotation _ world0).
  repeat constructor; simpl; by intros [? [=]].
Defined.

(** ** The file system *)

Section fs_facts.

Implicit Types (f : gmap (list string) node) (p d q : list string).

Lemma prefixes_length d q : q ∈ FS.prefixes d → (length q ≤ length d)%nat.
Proof.
  revert q. induction d as [|n d IH]; intros q; simpl; [by intros ?%elem_of_nil|].
  rewrite elem_of_cons, list_elem_of_fmap. intros [->|(q' & -> & Hq')]; simpl; [lia|].
  apply IH in Hq'. lia.
Qed.

Lemma prefixes_self d : d ≠ [] → d ∈ FS.prefixes d.
Proof.
  induction d as [|n d IH]; [done|]. intros _. simpl.
  destruct d as [|n' d]; [apply elem_of_cons; by left|].
  apply elem_of_cons. right. apply list_elem_of_fmap. eexists. split; [done|].
  by apply IH.
Qed.

Lemma length_parent p : p ≠ [] → (length (FS.parent p) < length p)%nat.
Proof.
  unfold FS.parent. induction p as [|n p IH]; [done|]. intros _.
  destruct p as [|n' p]; simpl in *; [lia|]. specialize (IH ltac:(done)). lia.
Qed.

Lemma not_prefix_of_parent p : p ≠ [] → p ∉ FS.prefixes (FS.parent p).
Proof.
  intros Hp Hin. apply prefixes_length in Hin.
  pose proof (length_parent p Hp). lia.
Qed.

Lemma lookup_add_dirs_in ds f q : q ∈ ds → FS.add_dirs ds f !! q = Some Dir.
Proof.
  induction ds as [|d ds IH]; simpl; [by intros ?%elem_of_nil|].
  rewrite elem_of_cons. intros Hq. destruct (decide (d = q)) as [->|Hne].
  - apply lookup_insert_eq.
  - rewrite lookup_insert_ne by done. apply IH. by destruct Hq.
Qed.

Lemma lookup_add_dirs_ne ds f q : q ∉ ds → FS.add_dirs ds f !! q = f !! q.
Proof.
  induction ds as [|d ds IH]; simpl; [done|].
  rewrite not_elem_of_cons. intros [Hne Hq]. by rewrite lookup_insert_ne, IH.
Qed.

Lemma is_dir_add_dirs d f : FS.is_dir (FS.add_dirs (FS.prefixes d) f) d = true.
Proof.
  unfold FS.is_dir. destruct d as [|n d]; [done|].
  rewrite lookup_add_dirs_in; [done|by apply prefixes_self].
Qed.

Lemma is_dir_root_or p f : FS.is_dir f p = false → p ≠ [].
Proof. by destruct p. Qed.

Lemma is_dir_add_dirs_ne ds f p :
  p ∉ ds → FS.is_dir (FS.add_dirs ds f) p = FS.is_dir f p.
Proof.
  intros Hp. destruct p as [|n p]; [done|].
  unfold FS.is_dir. by rewrite lookup_add_dirs_ne.
Qed.

(** The file system after the directories above [p] were created and [p]
    was written. *)
Lemma lookup_written p v f :
  p ≠ [] →
  <[p := v]> (FS.add_dirs (FS.prefixes (FS.parent p)) f) !! p = Some v
  ∧ (∀ d, d ∈ FS.prefixes (FS.parent p) →
          <[p := v]> (FS.add_dirs (FS.prefixes (FS.parent p)) f) !! d = Some Dir)
  ∧ (∀ q, q ≠ p → q ∉ FS.prefixes (FS.parent p) →
          <[p := v]> (FS.add_dirs (FS.prefixes (FS.parent p)) f) !! q = f !! q).
Proof.
  intros Hp. split; [apply lookup_insert_eq|]. split.
  - intros d Hd. rewrite lookup_insert_ne.
    + by apply lookup_add_dirs_in.
    + intros <-. by apply (not_prefix_of_parent _ Hp).
  - intros q Hq Hnd. rewrite lookup_insert_ne by done.
    by apply lookup_add_dirs_ne.
Qed.

End fs_facts.

(** ** The output sink *)

Section sink_facts.

Lemma safe_write_refused path content w :
  FS.path_exists (fs w) (parts path) = true →
  safe_write path content false w =
    (inl (SystemExit 1),
     mkWorld (stdout w)
       (stderr w +:+ ("File " +:+ path_str path
                      +:+ " already exists. Use --force to overwrite.") +:+ Str.nl)
       (fs w)).
Proof.
  intros Hex. unfold safe_write, confirm_overwrite, bind, get_fs, eprint, raise.
  simpl. by rewrite Hex.
Qed.

Lemma mkdir_parents_done d w :
  existsb (FS.is_file (fs w)) (FS.prefixes d) = false →
  FS.mkdir_parents d w =
    (inr (), mkWorld (stdout w) (stderr w) (FS.add_dirs (FS.prefixes d) (fs w))).
Proof. intros Hok. unfold FS.mkdir_parents, bind, get_fs, put_fs. simpl. by rewrite Hok. Qed.

Lemma safe_write_done path content force w :
  force = true ∨ FS.path_exists (fs w) (parts path) = false →
  accepts (fs w) (parts path) →
  safe_write path content force w =
    (inr (),
     mkWorld (stdout w)
       (stderr w +:+ ("Wrote keys to " +:+ path_str path) +:+ Str.nl)
       (<[parts path := File content]>
          (FS.add_dirs (FS.prefixes (FS.parent (parts path))) (fs w)))).
Proof.
  intros Hgo [Hmk Hdir]. pose proof (is_dir_root_or _ _ Hdir) as Hp.
  unfold safe_write, bind at 1 2 3.
  assert (confirm_overwrite path force w = (inr (), w)) as ->.
  { unfold confirm_overwrite, bind, get_fs, ret. simpl.
    destruct Hgo as [-> | ->]; by rewrite ?andb_false_r. }
  rewrite mkdir_parents_done by done.
  unfold FS.write_text, bind, get_fs, put_fs, eprint. simpl.
  rewrite is_dir_add_dirs. simpl.
  rewrite is_dir_add_dirs_ne; [|by apply not_prefix_of_parent].
  by rewrite Hdir.
Qed.

Lemma safe_append_done path content w :
  accepts (fs w) (parts path) →
  safe_append path content w =
    (inr (),
     mkWorld (stdout w)
       (stderr w +:+ ("Appended keys to " +:+ path_str path) +:+ Str.nl)
       (<[parts path :=
            File (default "" (content_of (fs w) (parts path)) +:+ content)]>
          (FS.add_dirs (FS.prefixes (FS.parent (parts path))) (fs w)))).
Proof.
  intros [Hmk Hdir]. pose proof (is_dir_root_or _ _ Hdir) as Hp.
  unfold safe_append, bind at 1 2.
  rewrite mkdir_parents_done by done.
  unfold FS.append_text, bind, get_fs, put_fs, eprint. simpl.
  rewrite is_dir_add_dirs. simpl.
  rewrite is_dir_add_dirs_ne; [|by apply not_prefix_of_parent].
  rewrite Hdir. simpl.
  rewrite lookup_add_dirs_ne; [|by apply not_prefix_of_parent].
  unfold content_of. by destruct (fs w !! parts path) as [[old|]|].
Qed.

(** [safe_append] never leaves through [sys.exit]. *)
Lemma safe_append_no_exit path content w code :
  (safe_append path content w).1 ≠ inl (SystemExit code).
Proof.
  unfold safe_append, bind at 1 2.
  unfold FS.mkdir_parents, bind, get_fs, put_fs, raise. simpl.
  destruct (existsb _ _); simpl; [done|].
  unfold FS.append_text, bind, get_fs, put_fs, raise, eprint. simpl.
  destruct (FS.is_dir _ (FS.parent _)); simpl; [|done].
  destruct (FS.is_dir _ (parts path)); simpl; [done|].
  by destruct (_ !! parts path) as [[old|]|].
Qed.

End sink_facts.

(** ** The entry point *)

Section main_facts.

Variables (e : env) (a : args).

Lemma user_fetch_keys x u : user (fetch_keys x u) = u.
Proof.
  unfold fetch_keys.
  destruct x as [[]|status [[]|raw]]; simpl; repeat case_decide; simpl;
    try done; by destruct (Str.truthy _).
Qed.

Lemma main_complete w :
  all_complete e a →
  main e a w = Some (main_with e a (imap (result_of e) (users a)) w).
Proof. intros Hall. unfold main. by rewrite fetch_all_spec. Qed.

Lemma json_entry_spec r : json_entry r = entry_of (user r) r.
Proof.
  unfold json_entry, entry_of.
  by destruct (keys r) as [[|c k]|], (error r).
Qed.

Lemma main_with_blank rs w :
  json a = false →
  all_space (normalized (blocks (inline_comments a) rs)) = true →
  main_with e a rs w =
    (inr (),
     mkWorld (stdout w)
       (stderr w +:+ diagnostics rs +:+ "No keys fetched." +:+ Str.nl) (fs w)).
Proof.
  intros Hjson Hblank. unfold main_with, bind. rewrite Hjson, format_results_spec.
  apply not_false_iff_true in Hblank. rewrite <- truthy_strip in Hblank.
  apply not_true_is_false in Hblank. rewrite Hblank. simpl.
  unfold eprint, after_diagnostics. simpl. by rewrite app_assoc.
Qed.

Lemma main_with_sink rs w :
  json a = false →
  all_space (normalized (blocks (inline_comments a) rs)) = false →
  main_with e a rs w =
    (if append a then
       safe_append (append_target e a) (normalized (blocks (inline_comments a) rs))
     else if Str.truthy_opt (output a) then
       safe_write (expanduser e (default "" (output a)))
         (normalized (blocks (inline_comments a) rs)) (force a)
     else print_end (normalized (blocks (inline_comments a) rs)) "")
      (before_sink rs w).
Proof.
  intros Hjson Hkeys. unfold main_with, bind at 1. rewrite Hjson, format_results_spec.
  apply truthy_strip in Hkeys. rewrite Hkeys. simpl. unfold bind at 1.
  assert ((if any_error rs then eprint "" else ret ()) (after_diagnostics rs w)
          = (inr (), before_sink rs w)) as ->.
  { unfold before_sink, after_diagnostics, eprint, ret. simpl.
    destruct (any_error rs); simpl; by rewrite ?app_assoc, ?app_nil_r. }
  destruct (append a); [|done].
  unfold append_target. by destruct (output a) as [[|c out]|].
Qed.

End main_facts.

(** C3. With [--json] the program prints to standard output one JSON
    array, pretty-printed, followed by a line feed.  The array has one entry
    per requested user name, in the order of the request, whether the fetch
    gave keys or an error; the entry for name [u] is
    [{user: u, keys: the lines of the keys (none when there are no keys),
    error: the error or null}].  Nothing goes to the diagnostic stream (the
    text formatter does not run) and the file system is left as it was,
    whatever [--append], [--output], [--inline-comments] and [--force] are. *)
Theorem json_mode_prints_every_user (e : env) (a : args) (w : world) :
  json a = true →
  all_complete e a →
  main e a w =
    Some (inr (),
          mkWorld
            (stdout w
             +:+ Json.dumps
                   (Json.Arr (imap (λ i u, entry_of u (result_of e i u)) (users a)))
             +:+ Str.nl)
            (stderr w) (fs w)).
Proof.
  intros Hjson Hall. rewrite main_complete by done.
  unfold main_with, print, print_end. rewrite Hjson.
  assert (map json_entry (imap (result_of e) (users a))
          = imap (λ i u, entry_of u (result_of e i u)) (users a)) as ->; [|done].
  apply list_eq. intros i.
  change (map json_entry ?l) with (json_entry <$> l).
  rewrite list_lookup_fmap, !list_lookup_imap.
  destruct (users a !! i) as [u|]; simpl; [|done].
  rewrite json_entry_spec. unfold result_of. by rewrite user_fetch_keys.
Qed.

Lemma json_mode_prints_every_user_witness :
  main env_demo (mkArgs ["alice"; "ghost404"] true true true (Some "keys.txt") false)
       world_demo =
    Some (inr (),
          mkWorld
            (Json.dumps
               (Json.Arr
                  [entry_of "alice" (mkFetchResult "alice" (Some "ssh-rsa AAA...") None);
                   entry_of "ghost404"
                     (mkFetchResult "ghost404" None (Some "User not found"))])
             +:+ Str.nl)
            "" fs_demo).
Proof.
  apply (json_mode_prints_every_user env_demo
           (mkArgs ["alice"; "ghost404"] true true true (Some "keys.txt") false)
           world_demo).
  - reflexivity.
  - unfold all_complete. simpl. compute_done.
Defined.

(** C7. Users alice and ghost404, where the request for alice gives
    status 200 with the body "ssh-rsa AAA... " and a line feed, and the
    request for ghost404 gives status 404.  In default text mode the program
    prints exactly "# alice", a line feed, "ssh-rsa AAA..." and a line feed
    to standard output, writes the line "ghost404: User not found" (and an
    empty line) to the diagnostic stream, leaves the file system alone and
    ends with exit code 0, in whichever order the two requests complete. *)
Theorem scenario_alice_ghost (e : env) (force : bool) (w : world) :
  net e 0%nat = Response 200 (inr ("ssh-rsa AAA... " +:+ Str.nl)) →
  (∃ body, net e 1%nat = Response 404 body) →
  completion e ≡ₚ [0; 1]%nat →
  ∃ r, main e (mkArgs ["alice"; "ghost404"] false false false None force) w =
         Some (r, mkWorld
                    (stdout w +:+ "# alice" +:+ Str.nl +:+ "ssh-rsa AAA..." +:+ Str.nl)
                    (stderr w +:+ "ghost404: User not found" +:+ Str.nl +:+ Str.nl)
                    (fs w))
       ∧ exit_code r = 0.
Proof.
  intros Halice [body Hghost] Hperm. exists (inr ()). split; [|done].
  rewrite main_complete by done. simpl. unfold result_of.
  rewrite Halice, Hghost.
  rewrite main_with_sink by (vm_compute; done). reflexivity.
Qed.

Lemma scenario_alice_ghost_witness :
  ∃ r, main env_demo (mkArgs ["alice"; "ghost404"] false false false None false)
            world_demo =
         Some (r, mkWorld
                    ("# alice" +:+ Str.nl +:+ "ssh-rsa AAA..." +:+ Str.nl)
                    ("ghost404: User not found" +:+ Str.nl +:+ Str.nl)
                    fs_demo)
       ∧ exit_code r = 0.
Proof.
  apply (scenario_alice_ghost env_demo false world_demo).
  - reflexivity.
  - by exists (inr "Not Found").
  - simpl. compute_done.
Defined.

(** C8. In text mode, when the normalised payload is blank, the program
    writes "No keys fetched." to the diagnostic stream (after the per-user
    diagnostics), prints nothing, ends normally (exit code 0) and leaves the
    file system exactly as it was, whatever [--append], [--output] and
    [--force] are.  The payload is blank as soon as every requested user
    erred or gave no keys. *)
Theorem no_keys_fetched (e : env) (a : args) (w : world) :
  json a = false →
  all_complete e a →
  (all_space (normalized (blocks (inline_comments a) (imap (result_of e) (users a))))
     = true →
   ∃ r, main e a w =
          Some (r, mkWorld (stdout w)
                     (stderr w +:+ diagnostics (imap (result_of e) (users a))
                      +:+ "No keys fetched." +:+ Str.nl)
                     (fs w))
        ∧ exit_code r = 0)
  ∧ (Forall (λ r, Str.truthy_opt (error r) = true ∨ Str.truthy_opt (keys r) = false)
       (imap (result_of e) (users a)) →
     all_space (normalized (blocks (inline_comments a) (imap (result_of e) (users a))))
       = true).
Proof.
  intros Hjson Hall. split.
  - intros Hblank. exists (inr ()). split; [|done].
    rewrite main_complete by done. f_equal. by apply main_with_blank.
  - generalize (imap (result_of e) (users a)). intros rs Hrs.
    assert (blocks (inline_comments a) rs = []) as ->; [|done].
    induction Hrs as [|r rest Hr _ IH]; [done|].
    rewrite blocks_cons, IH, List.app_nil_r.
    destruct Hr as [->|Hk]; [done|].
    destruct (Str.truthy_opt (error r)); [done|].
    unfold inline_lines, header_block.
    destruct (keys r) as [[|c k]|]; by destruct (inline_comments a).
Qed.

Lemma no_keys_fetched_witness :
  ∃ r, main env_ghost (mkArgs ["ghost404"] false false true (Some "keys.txt") false)
            world_demo =
         Some (r, mkWorld ""
                    ("ghost404: User not found" +:+ Str.nl
                     +:+ "No keys fetched." +:+ Str.nl)
                    fs_demo)
       ∧ exit_code r = 0.
Proof.
  apply (no_keys_fetched env_ghost
           (mkArgs ["ghost404"] false false true (Some "keys.txt") false) world_demo).
  - reflexivity.
  - unfold all_complete. simpl. compute_done.
  - reflexivity.
Defined.

(** C4, as stated, fails on the program.  With [--output keys.txt], no
    [--append], no [--json] and no [--force], and [keys.txt] there already:
    when the only requested user does not exist the program reports
    "No keys fetched." and ends with exit code 0, without any refusal.  And
    with an [--output] whose parent directory cannot be created (a regular
    file is in its place) the run is cut short by the file system: no
    directory is created and nothing is written. *)
Lemma overwrite_refusal_counterexample :
  (json args_ghost_write = false ∧ append args_ghost_write = false
   ∧ output args_ghost_write = Some "keys.txt" ∧ force args_ghost_write = false
   ∧ FS.path_exists (fs world_demo) (parts (expanduser env_ghost "keys.txt")) = true
   ∧ main env_ghost args_ghost_write world_demo =
       Some (inr (),
             mkWorld ""
               ("ghost404: User not found" +:+ Str.nl +:+ "No keys fetched." +:+ Str.nl)
               fs_demo)
   ∧ exit_code (inr ()) = 0)
  ∧ (FS.path_exists (fs world_blocked)
       (parts (expanduser env_alice "backup/keys.txt")) = false
     ∧ main env_alice args_alice_write world_blocked =
         Some (inl (OSError "mkdir"), world_blocked)).
Proof. vm_compute. repeat split; reflexivity. Qed.

(** C4, amended.  In text mode without [--append], with a non-empty
    [--output] and a payload that is not blank (some user gave keys):
    - when the path exists and [--force] is not set, the program writes the
      diagnostic "File ... already exists. Use --force to overwrite." and
      ends with exit code 1; the file system is exactly as before (nothing
      written, no directory created);
    - with [--force], or when the path does not exist, and when the file
      system accepts the write, the directories above the path exist
      afterwards, the file holds the payload (whatever it held before), no
      other path changes, and "Wrote keys to ..." is reported. *)
Theorem overwrite_guard (e : env) (a : args) (w : world) (out : string) :
  json a = false →
  append a = false →
  output a = Some out →
  out ≠ "" →
  all_complete e a →
  all_space (normalized (blocks (inline_comments a) (imap (result_of e) (users a))))
    = false →
  (force a = false →
   FS.path_exists (fs w) (parts (expanduser e out)) = true →
   ∃ r w', main e a w = Some (r, w')
     ∧ r = inl (SystemExit 1) ∧ exit_code r ≠ 0
     ∧ fs w' = fs w
     ∧ stdout w' = stdout w
     ∧ stderr w' =
         stderr (before_sink (imap (result_of e) (users a)) w)
         +:+ ("File " +:+ path_str (expanduser e out)
              +:+ " already exists. Use --force to overwrite.") +:+ Str.nl)
  ∧ (force a = true ∨ FS.path_exists (fs w) (parts (expanduser e out)) = false →
     accepts (fs w) (parts (expanduser e out)) →
     ∃ w', main e a w = Some (inr (), w')
       ∧ content_of (fs w') (parts (expanduser e out)) =
           Some (normalized (blocks (inline_comments a) (imap (result_of e) (users a))))
       ∧ (∀ d, d ∈ FS.prefixes (FS.parent (parts (expanduser e out))) →
               fs w' !! d = Some Dir)
       ∧ (∀ q, q ≠ parts (expanduser e out) →
               q ∉ FS.prefixes (FS.parent (parts (expanduser e out))) →
               fs w' !! q = fs w !! q)
       ∧ stdout w' = stdout w
       ∧ stderr w' =
           stderr (before_sink (imap (result_of e) (users a)) w)
           +:+ ("Wrote keys to " +:+ path_str (expanduser e out)) +:+ Str.nl).
Proof.
  intros Hjson Happend Hout Hne Hall Hkeys.
  rewrite main_complete by done. rewrite main_with_sink by done.
  rewrite Happend, Hout. destruct out as [|c out]; [done|]. simpl.
  split.
  - intros Hforce Hexists. rewrite Hforce.
    rewrite safe_write_refused by done. eexists _, _. by repeat split.
  - intros Hgo Hacc. rewrite safe_write_done by done. eexists. split; [done|].
    pose proof (is_dir_root_or _ _ (proj2 Hacc)) as Hp.
    destruct (lookup_written _
      (File (normalized (blocks (inline_comments a) (imap (result_of e) (users a)))))
      (fs w) Hp) as (Hfile & Hdirs & Hframe).
    simpl. unfold content_of. by rewrite Hfile.
Qed.

Lemma overwrite_guard_witness :
  (∃ r w', main env_alice (args_alice_keys false) world_demo = Some (r, w')
     ∧ r = inl (SystemExit 1) ∧ exit_code r ≠ 0
     ∧ fs w' = fs world_demo)
  ∧ (∃ w', main env_alice (args_alice_keys true) world_demo = Some (inr (), w')
       ∧ content_of (fs w') ["home"; "me"; "keys.txt"]
         = Some ("# alice" +:+ Str.nl +:+ "ssh-rsa AAA..." +:+ Str.nl)).
Proof.
  split.
  - destruct (overwrite_guard env_alice (args_alice_keys false) world_demo "keys.txt")
      as [Hrefuse _]; try reflexivity; try done.
    { unfold all_complete. simpl. compute_done. }
    destruct Hrefuse as (r & w' & Hmain & Hr & Hcode & Hfs & _); try reflexivity.
    by exists r, w'.
  - destruct (overwrite_guard env_alice (args_alice_keys true) world_demo "keys.txt")
      as [_ Hwrite]; try reflexivity; try done.
    { unfold all_complete. simpl. compute_done. }
    destruct Hwrite as (w' & Hmain & Hcontent & _).
    { by left. }
    { split; reflexivity. }
    by exists w'.
Defined.

(** C10, as stated, fails on the program.  With [--append] and
    [--output keys.txt], [keys.txt] holding "old": when the only requested
    user does not exist, nothing is appended (the file still holds "old",
    and "No keys fetched." is reported).  And when a regular file is in the
    place of the directory of the target, the run is cut short by the file
    system: neither the directory nor the file is created. *)
Lemma append_counterexample :
  (json args_ghost_append = false ∧ append args_ghost_append = true
   ∧ content_of (fs world_demo) (parts (append_target env_ghost args_ghost_append))
     = Some "old"
   ∧ main env_ghost args_ghost_append world_demo =
       Some (inr (),
             mkWorld ""
               ("ghost404: User not found" +:+ Str.nl +:+ "No keys fetched." +:+ Str.nl)
               fs_demo))
  ∧ (FS.path_exists (fs world_blocked)
       (parts (append_target env_alice args_alice_append)) = false
     ∧ main env_alice args_alice_append world_blocked =
         Some (inl (OSError "mkdir"), world_blocked)).
Proof. vm_compute. repeat split; reflexivity. Qed.

(** C10, amended.  In text mode with [--append]:
    - the run never ends through the "already exists" refusal (no
      [sys.exit] at all), whether the target exists or not;
    - [--force] changes nothing;
    - when the payload is not blank (some user gave keys) and the file
      system accepts the write, the target holds afterwards what it held
      before (nothing, when it did not exist) followed by the payload, the
      directories above it exist, no other path changes, and
      "Appended keys to ..." is reported. *)
Theorem append_mode_never_refuses (e : env) (a : args) (w : world) :
  json a = false →
  append a = true →
  all_complete e a →
  (∀ r w' code, main e a w = Some (r, w') → r ≠ inl (SystemExit code))
  ∧ (∀ b, main e (set_force b a) w = main e a w)
  ∧ (all_space (normalized (blocks (inline_comments a) (imap (result_of e) (users a))))
       = false →
     accepts (fs w) (parts (append_target e a)) →
     ∃ w', main e a w = Some (inr (), w')
       ∧ content_of (fs w') (parts (append_target e a)) =
           Some (default "" (content_of (fs w) (parts (append_target e a)))
                 +:+ normalized (blocks (inline_comments a)
                                   (imap (result_of e) (users a))))
       ∧ (∀ d, d ∈ FS.prefixes (FS.parent (parts (append_target e a))) →
               fs w' !! d = Some Dir)
       ∧ (∀ q, q ≠ parts (append_target e a) →
               q ∉ FS.prefixes (FS.parent (parts (append_target e a))) →
               fs w' !! q = fs w !! q)
       ∧ stdout w' = stdout w
       ∧ stderr w' =
           stderr (before_sink (imap (result_of e) (users a)) w)
           +:+ ("Appended keys to " +:+ path_str (append_target e a)) +:+ Str.nl).
Proof.
  intros Hjson Happend Hall. split; [|split].
  - intros r w' code. rewrite main_complete by done. intros [= Hmain].
    destruct (all_space (normalized (blocks (inline_comments a)
                (imap (result_of e) (users a))))) eqn:Hkeys.
    + rewrite main_with_blank in Hmain by done. by injection Hmain as <- _.
    + rewrite main_with_sink in Hmain by done. rewrite Happend in Hmain.
      pose proof (safe_append_no_exit (append_target e a)
        (normalized (blocks (inline_comments a) (imap (result_of e) (users a))))
        (before_sink (imap (result_of e) (users a)) w) code) as Hno.
      rewrite Hmain in Hno. exact Hno.
  - intros b. unfold main, set_force. simpl.
    destruct (fetch_all _ _ _) as [rs|]; [|done]. f_equal.
    unfold main_with. simpl. by rewrite Happend.
  - intros Hkeys Hacc. rewrite main_complete by done.
    rewrite main_with_sink by done. rewrite Happend.
    rewrite safe_append_done by done. eexists. split; [done|].
    pose proof (is_dir_root_or _ _ (proj2 Hacc)) as Hp.
    destruct (lookup_written _
      (File (default "" (content_of (fs w) (parts (append_target e a)))
             +:+ normalized (blocks (inline_comments a) (imap (result_of e) (users a)))))
      (fs w) Hp) as (Hfile & Hdirs & Hframe).
    simpl. unfold content_of at 1. by rewrite Hfile.
Qed.

Lemma append_mode_never_refuses_witness :
  ∃ w', main env_alice args_alice_keys_append world_demo = Some (inr (), w')
    ∧ content_of (fs w') ["home"; "me"; "keys.txt"]
      = Some ("old" +:+ "# alice" +:+ Str.nl +:+ "ssh-rsa AAA..." +:+ Str.nl).
Proof.
  destruct (append_mode_never_refuses env_alice args_alice_keys_append world_demo)
    as (_ & _ & Happ); try reflexivity.
  { unfold all_complete. simpl. compute_done. }
  destruct Happ as (w' & Hmain & Hcontent & _).
  { reflexivity. }
  { split; reflexivity. }
  by exists w'.
Defined.


(** * Further properties of the program *)

(** ** More about the text primitives *)

Section more_text_facts.

Implicit Types (s t : string) (c : ascii).

Lemma all_space_app s t : all_space (s +:+ t) = all_space s && all_space t.
Proof.
  induction s as [|c s IH]; simpl; [done|]. by rewrite IH, andb_assoc.
Qed.

Lemma lstrip_id s : (∀ c, Str.head s = Some c → Str.isspace c = false) → Str.lstrip s = s.
Proof. destruct s as [|c s]; simpl; [done|]. intros H. by rewrite (H c). Qed.

Lemma last_cons c s : s ≠ "" → Str.last (String c s) = Str.last s.
Proof. by destruct s. Qed.

Lemma rstrip_id s : (∀ c, Str.last s = Some c → Str.isspace c = false) → Str.rstrip s = s.
Proof.
  induction s as [|c s IH]; simpl; [done|]. intros H.
  destruct s as [|c' s'].
  - simpl. by rewrite (H c).
  - rewrite IH by (intros c0 Hc0; by apply H).
    simpl. by rewrite andb_false_r.
Qed.

Lemma strip_id s :
  (∀ c, Str.head s = Some c → Str.isspace c = false) →
  (∀ c, Str.last s = Some c → Str.isspace c = false) →
  Str.strip s = s.
Proof. intros Hh Hl. unfold Str.strip. by rewrite lstrip_id, rstrip_id. Qed.

Lemma strip_strip s : Str.strip (Str.strip s) = Str.strip s.
Proof. apply strip_id; [apply head_strip|apply last_strip]. Qed.

Lemma last_app s t : t ≠ "" → Str.last (s +:+ t) = Str.last t.
Proof.
  intros Ht. induction s as [|c s IH]; simpl; [done|].
  rewrite <- IH. apply last_cons. destruct s; simpl; [done|done].
Qed.

Lemma rstrip_snoc_space s c :
  Str.isspace c = true → Str.rstrip (s +:+ String c "") = Str.rstrip s.
Proof.
  intros Hc. induction s as [|c' s IH]; simpl; [by rewrite Hc|]. by rewrite IH.
Qed.

Lemma linebreak_isspace c : Str.is_linebreak c = true → Str.isspace c = true.
Proof.
  unfold Str.is_linebreak, Str.isspace. generalize (Str.code c). intros n.
  rewrite !orb_true_iff, !andb_true_iff, !N.leb_le, !N.eqb_eq. lia.
Qed.

End more_text_facts.

(** ** The endpoint *)

Lemma length_app (s t : string) :
  String.length (s +:+ t) = (String.length s + String.length t)%nat.
Proof. induction s as [|c s IH]; simpl; [done|]. by rewrite IH. Qed.

Lemma app_inj_r (s t u : string) : s +:+ u = t +:+ u → s = t.
Proof.
  revert t. induction s as [|c s IH]; intros [|c' t]; simpl; try done.
  - intros H. apply (f_equal String.length) in H. simpl in H.
    rewrite length_app in H. lia.
  - intros H. apply (f_equal String.length) in H. simpl in H.
    rewrite length_app in H. lia.
  - intros [= -> H]. f_equal. by apply IH.
Qed.

(** X1. Two different user names are never asked at the same address. *)
Theorem GITHUB_KEYS_URL_inj (u v : string) :
  u ≠ v → GITHUB_KEYS_URL u ≠ GITHUB_KEYS_URL v.
Proof.
  unfold GITHUB_KEYS_URL. intros Hne H. apply Hne.
  apply (inj (String.append _)) in H. by apply app_inj_r in H.
Qed.

Lemma GITHUB_KEYS_URL_inj_witness :
  GITHUB_KEYS_URL "alice" ≠ GITHUB_KEYS_URL "alice.keys".
Proof. apply (GITHUB_KEYS_URL_inj "alice" "alice.keys"). discriminate. Defined.

(** ** The fetcher *)

(** X2. The keys of a result of [fetch_keys] are never empty and carry no
    whitespace around them: trimming them again changes nothing. *)
Theorem fetch_keys_trimmed (x : exchange) (u k : string) :
  keys (fetch_keys x u) = Some k →
  k ≠ ""
  ∧ Str.strip k = k
  ∧ (∀ c, Str.head k = Some c → Str.isspace c = false)
  ∧ (∀ c, Str.last k = Some c → Str.isspace c = false).
Proof.
  assert (∀ e, keys (on_exception u e) = None) as Hexn by by intros [].
  unfold fetch_keys. destruct x as [e|status [e|raw]]; rewrite ?Hexn; try done;
    repeat case_decide; simpl; rewrite ?Hexn; try done.
  destruct (Str.strip raw) as [|c r] eqn:Hraw; simpl; [done|].
  intros [= <-]. rewrite <- Hraw.
  split; [by rewrite Hraw|]. split; [apply strip_strip|].
  split; [apply head_strip|apply last_strip].
Qed.

Lemma fetch_keys_trimmed_witness :
  "ssh-rsa AAA..." ≠ "" ∧ Str.strip "ssh-rsa AAA..." = "ssh-rsa AAA...".
Proof.
  destruct (fetch_keys_trimmed (net_demo 0) "alice" "ssh-rsa AAA...")
    as (Hne & Hstrip & _); [reflexivity|]. by split.
Defined.

(** ** Lines *)

Section line_facts.

Implicit Types (s t cur line : string) (c : ascii).

Lemma has_linebreak_app s t :
  has_linebreak (s +:+ t) = has_linebreak s || has_linebreak t.
Proof. induction s as [|c s IH]; simpl; [done|]. by rewrite IH, orb_assoc. Qed.

Lemma snoc_not_empty s c : s +:+ String c "" ≠ "".
Proof. by destruct s. Qed.

Lemma splitlines_from_nil cur s : Str.splitlines_from cur s = [] ↔ cur = "" ∧ s = "".
Proof.
  revert cur. induction s as [|c r IH]; intros cur; simpl.
  - destruct cur; simpl; split; try done. by intros [? _].
  - destruct (Str.is_linebreak c).
    + split; [done|]. by intros [_ ?].
    + rewrite IH. split; [|by intros [_ ?]].
      intros [H _]. by apply snoc_not_empty in H.
Qed.

(** A non-empty line being read is reported first, with what is read
    after it. *)
Lemma splitlines_from_first cur s :
  cur ≠ "" →
  ∃ first rest, Str.splitlines_from cur s = first :: rest
                ∧ Str.head first = Str.head cur.
Proof.
  revert cur. induction s as [|c r IH]; intros cur Hcur; simpl.
  - destruct cur; [done|]. simpl. eauto.
  - destruct (Str.is_linebreak c); [eauto|].
    destruct (IH (cur +:+ String c "")) as (first & rest & -> & Hhead).
    { apply snoc_not_empty. }
    exists first, rest. split; [done|]. rewrite Hhead. by destruct cur.
Qed.

Lemma splitlines_from_no_linebreak (n : nat) s cur line :
  (String.length s ≤ n)%nat →
  has_linebreak cur = false →
  line ∈ Str.splitlines_from cur s →
  has_linebreak line = false.
Proof.
  revert s cur. induction n as [|n IH]; intros s cur Hn Hcur.
  - destruct s; simpl in Hn; [|lia]. simpl.
    destruct (Str.truthy cur); [|by intros ?%elem_of_nil].
    by intros ->%list_elem_of_singleton.
  - destruct s as [|c r]; simpl.
    { destruct (Str.truthy cur); [|by intros ?%elem_of_nil].
      by intros ->%list_elem_of_singleton. }
    simpl in Hn. destruct (Str.is_linebreak c) eqn:Hc.
    + rewrite elem_of_cons. intros [->|Hin]; [done|].
      destruct r as [|c' r'].
      * by apply elem_of_nil in Hin.
      * destruct (Ascii.eqb c Str.CR && Ascii.eqb c' Str.LF).
        -- apply (IH r' ""); [simpl in Hn; lia|done|done].
        -- apply (IH (String c' r') ""); [lia|done|done].
    + apply IH; [lia|].
      rewrite has_linebreak_app. simpl. by rewrite Hcur, Hc.
Qed.

Lemma splitlines_from_nonblank (n : nat) s cur :
  (String.length s ≤ n)%nat →
  all_space cur = false ∨ all_space s = false →
  ∃ line, line ∈ Str.splitlines_from cur s ∧ all_space line = false.
Proof.
  revert s cur. induction n as [|n IH]; intros s cur Hn Hsome.
  - destruct s; simpl in Hn; [|lia]. destruct Hsome as [Hcur|]; [|done].
    simpl. destruct cur; [done|]. simpl. exists (String a cur).
    split; [apply list_elem_of_singleton; done|done].
  - destruct s as [|c r]; simpl.
    { destruct Hsome as [Hcur|]; [|done]. destruct cur; [done|]. simpl.
      exists (String a cur). split; [by apply list_elem_of_singleton|done]. }
    simpl in Hn. destruct (Str.is_linebreak c) eqn:Hc.
    + destruct (all_space cur) eqn:Hcur.
      * destruct Hsome as [|Hs]; [done|]. simpl in Hs.
        rewrite (linebreak_isspace _ Hc) in Hs. simpl in Hs.
        assert (∃ line, line ∈ match r with
                   | String c' r' =>
                       if Ascii.eqb c Str.CR && Ascii.eqb c' Str.LF
                       then Str.splitlines_from "" r'
                       else Str.splitlines_from "" r
                   | "" => Str.splitlines_from "" r
                   end ∧ all_space line = false) as (line & Hin & Hline).
        { destruct r as [|c' r']; [done|].
          destruct (Ascii.eqb c Str.CR && Ascii.eqb c' Str.LF) eqn:Hcrlf.
          - apply (IH r' ""); [simpl in Hn; lia|]. right.
            apply andb_true_iff in Hcrlf as [_ Hlf].
            apply Ascii.eqb_eq in Hlf. subst c'. exact Hs.
          - apply (IH (String c' r') ""); [lia|]. by right. }
        exists line. split; [|done]. apply elem_of_cons. by right.
      * exists cur. split; [|done]. apply elem_of_cons. by left.
    + apply IH; [lia|]. rewrite all_space_app. simpl.
      destruct (all_space cur); simpl; [|by left].
      destruct Hsome as [|Hs]; [done|]. simpl in Hs.
      destruct (Str.isspace c); simpl in *; [by right|by left].
Qed.

End line_facts.

(** ** Results of the fetcher, and what the formatter makes of them *)

Section fetched_facts.

Implicit Types (r : FetchResult) (results : list FetchResult).

(** The two shapes of a result of [fetch_keys]. *)
Lemma fetch_keys_cases x u :
  (∃ e, fetch_keys x u = mkFetchResult u None (Some e))
  ∨ (∃ k, fetch_keys x u = mkFetchResult u (Some k) None
          ∧ k ≠ "" ∧ Str.strip k = k).
Proof.
  assert (∀ e, ∃ d, on_exception u e = mkFetchResult u None (Some d)) as Hexn
    by (intros []; simpl; eauto).
  unfold fetch_keys. destruct x as [e|status [e|raw]]; [by left|..];
    repeat case_decide; try (left; by eauto).
  destruct (Str.strip raw) as [|c k] eqn:Hraw; simpl; [left; by eauto|].
  right. eexists. split; [done|]. split; [done|].
  rewrite <- Hraw. apply strip_strip.
Qed.

Lemma stripped_not_blank k : k ≠ "" → Str.strip k = k → all_space k = false.
Proof.
  intros Hne Hk. apply not_true_is_false. intros Hsp.
  apply strip_empty in Hsp. congruence.
Qed.

Lemma elem_of_inline_blocks results x :
  x ∈ blocks true results ↔
  ∃ r k line, r ∈ results ∧ no_error r ∧ keys r = Some k
              ∧ line ∈ Str.splitlines k ∧ all_space line = false
              ∧ x = line +:+ " " +:+ user r.
Proof.
  unfold blocks. rewrite list_elem_of_In, in_concat. split.
  - intros (ls & Hls & Hx). apply in_map_iff in Hls as (r & <- & Hr).
    apply list_elem_of_In, list_elem_of_filter in Hr as [Hno Hr].
    unfold inline_lines in Hx. destruct (keys r) as [k|] eqn:Hk; [|done].
    apply in_map_iff in Hx as (line & <- & Hline).
    apply list_elem_of_In, list_elem_of_filter in Hline as [Hblank Hline].
    by exists r, k, line.
  - intros (r & k & line & Hr & Hno & Hk & Hline & Hblank & ->).
    exists (inline_lines r). split.
    + apply in_map_iff. exists r. split; [done|].
      apply list_elem_of_In, list_elem_of_filter. by split.
    + unfold inline_lines. rewrite Hk. apply in_map_iff. exists line.
      split; [done|]. apply list_elem_of_In, list_elem_of_filter. by split.
Qed.

Lemma elem_of_header_blocks results x :
  x ∈ blocks false results ↔
  ∃ r k, r ∈ results ∧ no_error r ∧ keys r = Some k ∧ k ≠ ""
         ∧ x = "# " +:+ user r +:+ Str.nl +:+ k +:+ Str.nl.
Proof.
  unfold blocks. rewrite list_elem_of_In, in_concat. split.
  - intros (ls & Hls & Hx). apply in_map_iff in Hls as (r & <- & Hr).
    apply list_elem_of_In, list_elem_of_filter in Hr as [Hno Hr].
    unfold header_block in Hx. destruct (keys r) as [[|c k]|] eqn:Hk; try done.
    destruct Hx as [<-|[]]. by exists r, (String c k).
  - intros (r & k & Hr & Hno & Hk & Hne & ->).
    exists (header_block r). split.
    + apply in_map_iff. exists r. split; [done|].
      apply list_elem_of_In, list_elem_of_filter. by split.
    + unfold header_block. rewrite Hk. destruct k; [done|]. by left.
Qed.

(** No block of the payload is blank. *)
Lemma blocks_not_blank inline results x :
  x ∈ blocks inline results → all_space x = false.
Proof.
  destruct inline.
  - intros (r & k & line & _ & _ & _ & _ & Hline & ->)%elem_of_inline_blocks.
    by rewrite all_space_app, Hline.
  - by intros (r & k & _ & _ & _ & _ & ->)%elem_of_header_blocks.
Qed.

Lemma all_space_join items :
  all_space (Str.join Str.nl items) = forallb all_space items.
Proof.
  induction items as [|p rest IH]; [done|]. destruct rest as [|q rest].
  - simpl. by rewrite andb_true_r.
  - change (Str.join Str.nl (p :: q :: rest))
      with (p +:+ Str.nl +:+ Str.join Str.nl (q :: rest)).
    rewrite !all_space_app, IH. by change (all_space Str.nl) with true.
Qed.

Lemma blank_normalized inline results :
  all_space (normalized (blocks inline results)) = true ↔ blocks inline results = [].
Proof.
  unfold normalized. rewrite all_space_app, andb_true_r.
  split; [|by intros ->].
  intros Hsp. assert (Str.strip (Str.join Str.nl (blocks inline results)) = "") as Hs.
  { destruct (Str.strip _) as [|c t] eqn:E; [done|].
    simpl in Hsp. apply andb_true_iff in Hsp as [Hc _].
    by rewrite (head_strip (Str.join Str.nl (blocks inline results)) c) in Hc
      by by rewrite E. }
  apply strip_empty in Hs. rewrite all_space_join in Hs.
  destruct (blocks inline results) as [|x rest] eqn:Hb; [done|].
  simpl in Hs. apply andb_true_iff in Hs as [Hx _].
  rewrite (blocks_not_blank inline results x) in Hx; [done|].
  rewrite Hb. apply elem_of_cons. by left.
Qed.

End fetched_facts.

Section formatter_more.

Implicit Types (r : FetchResult) (results pre post : list FetchResult).

Lemma blocks_app inline pre post :
  blocks inline (pre ++ post) = blocks inline pre ++ blocks inline post.
Proof. unfold blocks. by rewrite filter_app, map_app, concat_app. Qed.

Lemma diagnostics_app pre post :
  diagnostics (pre ++ post) = diagnostics pre +:+ diagnostics post.
Proof.
  induction pre as [|r pre IH]; simpl; [done|]. by rewrite IH, app_assoc.
Qed.

Lemma any_error_app pre post :
  any_error (pre ++ post) = any_error pre || any_error post.
Proof. apply existsb_app. Qed.

Lemma any_error_true results :
  any_error results = true ↔
  ∃ r e, r ∈ results ∧ error r = Some e ∧ e ≠ "".
Proof.
  unfold any_error. rewrite existsb_exists. split.
  - intros (r & Hr & Herr). apply list_elem_of_In in Hr.
    destruct (error r) as [[|c e]|] eqn:He; try done.
    by exists r, (String c e).
  - intros (r & e & Hr & He & Hne). exists r. split; [by apply list_elem_of_In|].
    rewrite He. by destruct e.
Qed.

End formatter_more.

(** X3. [format_results] always returns.  It prints nothing on standard
    output and leaves the file system alone; on the diagnostic stream it
    adds one line, the user name, a colon and the error, for every result
    with a non-empty error, in the order of the results.  The flag it
    returns is set exactly when there is such a result. *)
Theorem format_results_reports (results : list FetchResult) (inline : bool)
    (w : world) :
  ∃ payload had,
    format_results results inline w =
      (inr (payload, had),
       mkWorld (stdout w) (stderr w +:+ diagnostics results) (fs w))
    ∧ (had = true ↔ ∃ r e, r ∈ results ∧ error r = Some e ∧ e ≠ "")
    ∧ (had = false → diagnostics results = "").
Proof.
  eexists _, _. split; [apply format_results_spec|]. split; [apply any_error_true|].
  unfold any_error. induction results as [|r rest IH]; [done|]. simpl.
  intros [Hr Hrest]%orb_false_iff. unfold diagnostic. rewrite Hr. by apply IH.
Qed.

Lemma format_results_reports_witness :
  ∃ r e, r ∈ [fetch_keys (net_demo 0) "alice"; fetch_keys (net_demo 1) "ghost404"]
         ∧ error r = Some e ∧ e ≠ "".
Proof.
  destruct (format_results_reports
              [fetch_keys (net_demo 0) "alice"; fetch_keys (net_demo 1) "ghost404"]
              false world0) as (payload & had & Hrun & Hhad & _).
  apply Hhad. injection Hrun as _ <-. reflexivity.
Defined.

(** X4. A result with neither keys nor a non-empty error leaves no trace:
    the payload, the flag and the diagnostics are those of the other
    results.  Such is the result of a request that failed with an exception
    whose description is empty. *)
Theorem format_results_silent (pre post : list FetchResult) (r : FetchResult)
    (inline : bool) (w : world) :
  error r = None ∨ error r = Some "" →
  keys r = None ∨ keys r = Some "" →
  format_results (pre ++ r :: post) inline w = format_results (pre ++ post) inline w.
Proof.
  intros Herr Hkeys. rewrite !format_results_spec. unfold after_diagnostics.
  assert (Str.truthy_opt (error r) = false) as He by (by destruct Herr as [-> | ->]).
  assert (blocks inline [r] = []) as Hb.
  { rewrite blocks_cons, He. unfold inline_lines, header_block.
    destruct Hkeys as [-> | ->]; by destruct inline. }
  assert (diagnostics [r] = "") as Hd by (simpl; unfold diagnostic; by rewrite He).
  assert (any_error [r] = false) as Ha by (unfold any_error; simpl; by rewrite He).
  change (r :: post) with ([r] ++ post).
  rewrite !blocks_app, !diagnostics_app, !any_error_app, Hb, Hd, Ha. done.
Qed.

Lemma format_results_silent_witness :
  format_results
    [fetch_keys (net_demo 0) "alice";
     fetch_keys (GetRaises (OtherException "")) "bob";
     fetch_keys (net_demo 1) "ghost404"] false world0
  = format_results
      [fetch_keys (net_demo 0) "alice"; fetch_keys (net_demo 1) "ghost404"]
      false world0.
Proof.
  apply (format_results_silent [fetch_keys (net_demo 0) "alice"]
           [fetch_keys (net_demo 1) "ghost404"]
           (fetch_keys (GetRaises (OtherException "")) "bob") false world0).
  - by right.
  - by left.
Defined.

(** X5. With inline annotation, when no user name contains a line
    boundary, neither does any emitted line: every key stays on a line of
    its own. *)
Theorem inline_one_key_per_line (results : list FetchResult) (x : string) :
  Forall (λ r, has_linebreak (user r) = false) results →
  x ∈ blocks true results →
  has_linebreak x = false.
Proof.
  intros Husers (r & k & line & Hr & _ & _ & Hline & _ & ->)%elem_of_inline_blocks.
  rewrite Forall_forall in Husers. rewrite !has_linebreak_app, (Husers r Hr).
  rewrite (splitlines_from_no_linebreak (String.length k) k "" line); done.
Qed.

Lemma inline_one_key_per_line_witness :
  has_linebreak "ssh-rsa AAA... alice" = false.
Proof.
  apply (inline_one_key_per_line
           [fetch_keys (Response 200 (inr ("ssh-rsa AAA..." +:+ Str.nl +:+ "ssh-ed25519 BBB"))) "alice"]).
  - by repeat constructor.
  - assert (blocks true
      [fetch_keys (Response 200 (inr ("ssh-rsa AAA..." +:+ Str.nl +:+ "ssh-ed25519 BBB"))) "alice"]
      = ["ssh-rsa AAA... alice"; "ssh-ed25519 BBB alice"]) as -> by (vm_compute; reflexivity).
    apply elem_of_cons. by left.
Defined.

(** X6. The JSON entry of a result of [fetch_keys] for [u] names [u], and
    has either a non-empty list of key lines and the error null, or an
    empty list and an error that is not null. *)
Theorem json_entry_of_fetch (x : exchange) (u : string) :
  ∃ lines err,
    json_entry (fetch_keys x u) =
      Json.Obj [("user", Json.Str u); ("keys", Json.Arr (map Json.Str lines));
                ("error", err)]
    ∧ (lines = [] ↔ err ≠ Json.Null)
    ∧ (∀ k, keys (fetch_keys x u) = Some k → lines = Str.splitlines k).
Proof.
  destruct (fetch_keys_cases x u) as [[e ->]|(k & -> & Hne & Hk)].
  - exists [], (Json.Str e). split; [done|]. split; [|done]. by split.
  - exists (Str.splitlines k), Json.Null. unfold json_entry. simpl.
    destruct k as [|c k]; [done|]. simpl. split; [done|]. split; [|by intros ? [= <-]].
    split; [|done]. intros Hnil. by apply splitlines_from_nil in Hnil as [_ ?].
Qed.

Lemma json_entry_of_fetch_witness :
  ∃ lines err,
    json_entry (fetch_keys (net_demo 0) "alice") =
      Json.Obj [("user", Json.Str "alice"); ("keys", Json.Arr (map Json.Str lines));
                ("error", err)]
    ∧ lines = ["ssh-rsa AAA..."].
Proof.
  destruct (json_entry_of_fetch (net_demo 0) "alice") as (lines & err & Hentry & _ & Hlines).
  exists lines, err. split; [exact Hentry|]. by apply (Hlines "ssh-rsa AAA...").
Defined.

(** X7. For the results of a fetch, in either text mode, the test by
    which [main] decides that no keys were fetched (the payload of the
    formatter trims to the empty string) succeeds exactly when no request
    gave keys. *)
Theorem blank_payload_iff_no_keys (users : list string) (net : nat → exchange)
    (inline : bool) (w : world) :
  ∃ payload had w',
    format_results (imap (λ i u, fetch_keys (net i) u) users) inline w
      = (inr (payload, had), w')
    ∧ (Str.truthy (Str.strip payload) = false ↔
       ∀ i u, users !! i = Some u → keys (fetch_keys (net i) u) = None).
Proof.
  eexists _, _, _. split; [apply format_results_spec|].
  rewrite <- not_true_iff_false, truthy_strip, not_false_iff_true, blank_normalized.
  split.
  - intros Hnil i u Hi.
    destruct (fetch_keys_cases (net i) u) as [[e ->]|(k & Hr & Hne & Hk)]; [done|].
    exfalso.
    assert (fetch_keys (net i) u ∈ imap (λ i u, fetch_keys (net i) u) users) as Hin.
    { apply list_elem_of_lookup. exists i. by rewrite list_lookup_imap, Hi. }
    destruct inline.
    + destruct (splitlines_from_nonblank (String.length k) k "") as (line & Hline & Hnb);
        [done|right; by apply stripped_not_blank|].
      assert (line +:+ " " +:+ u ∈ blocks true (imap (λ i u, fetch_keys (net i) u) users))
        as Hx.
      { apply elem_of_inline_blocks. exists (fetch_keys (net i) u), k, line.
        rewrite Hr. by repeat split; try rewrite <- Hr. }
      rewrite Hnil in Hx. by apply elem_of_nil in Hx.
    + assert ("# " +:+ u +:+ Str.nl +:+ k +:+ Str.nl
              ∈ blocks false (imap (λ i u, fetch_keys (net i) u) users)) as Hx.
      { apply elem_of_header_blocks. exists (fetch_keys (net i) u), k.
        rewrite Hr. by repeat split; try rewrite <- Hr. }
      rewrite Hnil in Hx. by apply elem_of_nil in Hx.
  - intros Hnone.
    destruct (blocks inline _) as [|x rest] eqn:Hb; [done|]. exfalso.
    assert (x ∈ blocks inline (imap (λ i u, fetch_keys (net i) u) users)) as Hx
      by (rewrite Hb; apply elem_of_cons; by left).
    assert (∃ r k, r ∈ imap (λ i u, fetch_keys (net i) u) users ∧ keys r = Some k)
      as (r & k & Hr & Hk).
    { destruct inline.
      - apply elem_of_inline_blocks in Hx as (r & k & _ & Hr & _ & Hk & _). eauto.
      - apply elem_of_header_blocks in Hx as (r & k & Hr & _ & Hk & _). eauto. }
    apply list_elem_of_lookup in Hr as [i Hi].
    rewrite list_lookup_imap in Hi.
    destruct (users !! i) as [u|] eqn:Hu; [|done]. simpl in Hi.
    injection Hi as <-. rewrite (Hnone i u Hu) in Hk. done.
Qed.

Lemma blank_payload_iff_no_keys_witness :
  ∃ payload had w',
    format_results (imap (λ i u, fetch_keys (net_demo (S i)) u) ["ghost404"; "carol"])
      true world0 = (inr (payload, had), w')
    ∧ Str.truthy (Str.strip payload) = false.
Proof.
  destruct (blank_payload_iff_no_keys ["ghost404"; "carol"] (λ i, net_demo (S i))
              true world0) as (payload & had & w' & Hrun & Hblank).
  exists payload, had, w'. split; [exact Hrun|]. apply Hblank.
  intros [|[|i]] u; simpl; [by intros [= <-]..|done].
Defined.

(** ** The dispatcher waits for every request *)

Lemma gather_pending (slots : list (option FetchResult)) (i : nat) :
  slots !! i = Some None → gather slots = None.
Proof.
  revert i. induction slots as [|[r|] slots IH]; intros i; [done| |done].
  destruct i as [|i]; [done|]. simpl. intros Hi. by rewrite (IH i).
Qed.

(** X8. [fetch_all] returns once every request has completed, whatever
    else the event loop reports (a request completing twice, or an index
    that is no request), and then with the result of every request in the
    order of the names; as long as one request has not completed, it does
    not return. *)
Theorem fetch_all_waits_for_all (users : list string) (net : nat → exchange)
    (completion : list nat) :
  ((∀ i, (i < length users)%nat → i ∈ completion) →
   fetch_all net completion users = Some (imap (λ i u, fetch_keys (net i) u) users))
  ∧ (∀ i, (i < length users)%nat → i ∉ completion →
     fetch_all net completion users = None).
Proof.
  unfold fetch_all, run_loop. split.
  - intros Hall. rewrite <- gather_filled. f_equal. apply list_eq. intros j.
    rewrite list_lookup_fmap, list_lookup_imap.
    destruct (users !! j) as [u|] eqn:Hj; simpl.
    + rewrite (lookup_foldl_complete _ _ _ _ _ u); [|by rewrite length_replicate|done].
      rewrite decide_True; [done|]. apply Hall. by eapply lookup_lt_Some.
    + apply lookup_ge_None. rewrite length_foldl_complete, length_replicate.
      by apply lookup_ge_None.
  - intros i Hi Hnot. apply (gather_pending _ i).
    destruct (lookup_lt_is_Some_2 users i Hi) as [u Hu].
    rewrite (lookup_foldl_complete _ _ _ _ _ u); [|by rewrite length_replicate|done].
    rewrite decide_False by done. by apply lookup_replicate_2.
Qed.

Lemma fetch_all_waits_for_all_witness :
  fetch_all net_demo [1; 7; 0; 1]%nat ["alice"; "ghost404"]
    = Some (imap (λ i u, fetch_keys (net_demo i) u) ["alice"; "ghost404"])
  ∧ fetch_all net_demo [1; 7; 1]%nat ["alice"; "ghost404"] = None.
Proof.
  split.
  - apply (proj1 (fetch_all_waits_for_all ["alice"; "ghost404"] net_demo
                    [1; 7; 0; 1]%nat)).
    intros i Hi. simpl in Hi.
    destruct i as [|[|i]]; [| |lia]; rewrite !elem_of_cons; auto.
  - apply (proj2 (fetch_all_waits_for_all ["alice"; "ghost404"] net_demo
                    [1; 7; 1]%nat) 0%nat); [simpl; lia|].
    rewrite !not_elem_of_cons. repeat split; try done. apply not_elem_of_nil.
Defined.

(** ** The sink, when it is cut short, and when it is used twice *)

Section sink_more.

Implicit Types (f : gmap (list string) node) (p q : list string) (w : world).

Lemma content_of_add_dirs ds f q :
  existsb (FS.is_file f) ds = false →
  content_of (FS.add_dirs ds f) q = content_of f q.
Proof.
  induction ds as [|d ds IH]; simpl; [done|].
  intros [Hd Hds]%orb_false_iff. unfold content_of in *.
  destruct (decide (d = q)) as [->|Hne].
  - rewrite lookup_insert_eq. unfold FS.is_file in Hd.
    by destruct (f !! q) as [[c|]|].
  - rewrite lookup_insert_ne by done. by apply IH.
Qed.

Lemma path_exists_file f p c : f !! p = Some (File c) → FS.path_exists f p = true.
Proof. intros H. unfold FS.path_exists. destruct p; [done|]. by rewrite H. Qed.

(** What a run of [safe_write] that returns has found and done. *)
Lemma safe_write_returns path content force w w1 :
  safe_write path content force w = (inr (), w1) →
  (force = true ∨ FS.path_exists (fs w) (parts path) = false)
  ∧ accepts (fs w) (parts path).
Proof.
  unfold safe_write, bind at 1 2 3.
  unfold confirm_overwrite, bind, get_fs, eprint, raise, ret. simpl.
  destruct (FS.path_exists (fs w) (parts path)) eqn:Hex, force; simpl; try done.
  all: unfold FS.mkdir_parents, bind, get_fs, put_fs, raise; simpl.
  all: destruct (existsb _ _) eqn:Hmk; simpl; [done|].
  all: unfold FS.write_text, bind, get_fs, put_fs, raise, eprint; simpl.
  all: rewrite is_dir_add_dirs; simpl.
  all: destruct (FS.is_dir (FS.add_dirs _ _) (parts path)) eqn:Hdir; simpl; [done|].
  all: intros _; split; [auto|]; split; [done|].
  all: destruct (parts path) as [|n p] eqn:Hp; [done|].
  all: rewrite <- Hdir; symmetry; apply is_dir_add_dirs_ne.
  all: rewrite <- Hp; apply not_prefix_of_parent; by rewrite Hp.
Qed.

Lemma safe_append_returns path content w w1 :
  safe_append path content w = (inr (), w1) → accepts (fs w) (parts path).
Proof.
  unfold safe_append, bind at 1 2.
  unfold FS.mkdir_parents, bind, get_fs, put_fs, raise. simpl.
  destruct (existsb _ _) eqn:Hmk; simpl; [done|].
  unfold FS.append_text, bind, get_fs, put_fs, raise, eprint. simpl.
  rewrite is_dir_add_dirs. simpl.
  destruct (FS.is_dir (FS.add_dirs _ _) (parts path)) eqn:Hdir; simpl; [done|].
  intros _. split; [done|].
  destruct (parts path) as [|n p] eqn:Hp; [done|].
  rewrite <- Hdir. symmetry. apply is_dir_add_dirs_ne.
  rewrite <- Hp. apply not_prefix_of_parent. by rewrite Hp.
Qed.

End sink_more.

(** X9. A run of [safe_write] that is cut short, by the refusal or by the
    file system, has printed nothing on standard output and has left every
    regular file with the content it had: nothing is written in part. *)
Theorem safe_write_cut_short_keeps_files (path : Path) (content : string)
    (force : bool) (w w' : world) (e : abort) :
  safe_write path content force w = (inl e, w') →
  stdout w' = stdout w
  ∧ ∀ q, content_of (fs w') q = content_of (fs w) q.
Proof.
  unfold safe_write, bind at 1 2 3.
  unfold confirm_overwrite, bind, get_fs, eprint, raise, ret. simpl.
  destruct (FS.path_exists (fs w) (parts path) && negb force); simpl;
    [by intros [= _ <-]|].
  unfold FS.mkdir_parents, bind, get_fs, put_fs, raise. simpl.
  destruct (existsb _ _) eqn:Hmk; simpl; [by intros [= _ <-]|].
  unfold FS.write_text, bind, get_fs, put_fs, raise, eprint. simpl.
  rewrite is_dir_add_dirs. simpl.
  destruct (FS.is_dir (FS.add_dirs _ _) (parts path)); simpl; [|done].
  intros [= _ <-]. simpl. split; [done|]. intros q. by apply content_of_add_dirs.
Qed.

Lemma safe_write_cut_short_keeps_files_witness :
  content_of (fs (safe_write (expanduser_demo "backup/keys.txt") "new" true world_blocked).2) ["home"; "me"; "keys.txt"] = Some "old".
Proof.
  destruct (safe_write_cut_short_keeps_files
              (expanduser_demo "backup/keys.txt") "new" true world_blocked
              (safe_write (expanduser_demo "backup/keys.txt") "new" true world_blocked).2
              (OSError "mkdir")) as [_ Hfiles].
  { vm_compute. reflexivity. }
  rewrite Hfiles. vm_compute. reflexivity.
Defined.

(** X10. The same for [safe_append]: when the file system cuts it short,
    nothing was printed on standard output and no regular file has
    changed. *)
Theorem safe_append_cut_short_keeps_files (path : Path) (content : string)
    (w w' : world) (e : abort) :
  safe_append path content w = (inl e, w') →
  stdout w' = stdout w
  ∧ ∀ q, content_of (fs w') q = content_of (fs w) q.
Proof.
  unfold safe_append, bind at 1 2.
  unfold FS.mkdir_parents, bind, get_fs, put_fs, raise. simpl.
  destruct (existsb _ _) eqn:Hmk; simpl; [by intros [= _ <-]|].
  unfold FS.append_text, bind, get_fs, put_fs, raise, eprint. simpl.
  rewrite is_dir_add_dirs. simpl.
  destruct (FS.is_dir (FS.add_dirs _ _) (parts path)); simpl.
  - intros [= _ <-]. simpl. split; [done|]. intros q. by apply content_of_add_dirs.
  - by destruct (_ !! parts path) as [[old|]|].
Qed.

Lemma safe_append_cut_short_keeps_files_witness :
  content_of (fs (safe_append (expanduser_demo "backup/keys.txt") "new" world_blocked).2) ["home"; "me"; "keys.txt"] = Some "old".
Proof.
  destruct (safe_append_cut_short_keeps_files
              (expanduser_demo "backup/keys.txt") "new" world_blocked
              (safe_append (expanduser_demo "backup/keys.txt") "new" world_blocked).2
              (OSError "mkdir")) as [_ Hfiles].
  { vm_compute. reflexivity. }
  rewrite Hfiles. vm_compute. reflexivity.
Defined.

(** X11. Once [safe_write] has written a file, writing to the same path
    again without [--force] is refused with exit code 1, and the file keeps
    what the first run wrote. *)
Theorem safe_write_then_refused (path : Path) (first second : string)
    (force : bool) (w w1 : world) :
  safe_write path first force w = (inr (), w1) →
  ∃ w2, safe_write path second false w1 = (inl (SystemExit 1), w2)
        ∧ fs w2 = fs w1
        ∧ content_of (fs w2) (parts path) = Some first.
Proof.
  intros Hrun. destruct (safe_write_returns _ _ _ _ _ Hrun) as [Hgo Hacc].
  rewrite safe_write_done in Hrun by done. injection Hrun as <-.
  assert (fs (mkWorld (stdout w)
                (stderr w +:+ ("Wrote keys to " +:+ path_str path) +:+ Str.nl)
                (<[parts path := File first]>
                   (FS.add_dirs (FS.prefixes (FS.parent (parts path))) (fs w))))
            !! parts path = Some (File first)) as Hfile
    by apply lookup_insert_eq.
  rewrite safe_write_refused by by eapply path_exists_file.
  eexists. split; [done|]. split; [done|]. simpl in *.
  unfold content_of. by rewrite Hfile.
Qed.

Lemma safe_write_then_refused_witness :
  ∃ w2, safe_write (expanduser_demo "new.txt") "second" false
          (safe_write (expanduser_demo "new.txt") "first" false world_demo).2
        = (inl (SystemExit 1), w2)
        ∧ fs w2 = fs (safe_write (expanduser_demo "new.txt") "first" false world_demo).2
        ∧ content_of (fs w2) ["home"; "me"; "new.txt"] = Some "first".
Proof.
  apply (safe_write_then_refused (expanduser_demo "new.txt") "first" "second"
           false world_demo).
  vm_compute. reflexivity.
Defined.

(** X12. Appending twice appends both texts, in order, after what the
    file held at first (nothing, when it did not exist): when the first
    [safe_append] returns, so does the second, and it changes no other
    path. *)
Theorem safe_append_twice (path : Path) (first second : string) (w w1 : world) :
  safe_append path first w = (inr (), w1) →
  ∃ w2, safe_append path second w1 = (inr (), w2)
        ∧ content_of (fs w2) (parts path) =
            Some (default "" (content_of (fs w) (parts path)) +:+ first +:+ second)
        ∧ ∀ q, q ≠ parts path → fs w2 !! q = fs w1 !! q.
Proof.
  intros Hrun. pose proof (safe_append_returns _ _ _ _ Hrun) as Hacc.
  pose proof (is_dir_root_or _ _ (proj2 Hacc)) as Hp.
  rewrite safe_append_done in Hrun by done. injection Hrun as <-.
  destruct (lookup_written _
    (File (default "" (content_of (fs w) (parts path)) +:+ first)) (fs w) Hp)
    as (Hfile & Hdirs & Hframe).
  set (f1 := <[parts path := _]> _) in *.
  assert (accepts f1 (parts path)) as Hacc1.
  { split.
    - apply not_true_is_false. intros (d & Hd & Hfile')%existsb_exists.
      apply list_elem_of_In in Hd. unfold FS.is_file in Hfile'.
      by rewrite (Hdirs d Hd) in Hfile'.
    - unfold FS.is_dir. destruct (parts path); [done|]. by rewrite Hfile. }
  rewrite safe_append_done by done. eexists. split; [done|]. simpl.
  destruct (lookup_written _
    (File (default "" (content_of f1 (parts path)) +:+ second)) f1 Hp)
    as (Hfile2 & Hdirs2 & Hframe2).
  split.
  - unfold content_of at 1. rewrite Hfile2. f_equal.
    unfold content_of at 1. rewrite Hfile. simpl. by rewrite app_assoc.
  - intros q Hq.
    destruct (decide (q ∈ FS.prefixes (FS.parent (parts path)))) as [Hin|Hnin].
    + by rewrite Hdirs2, Hdirs.
    + by apply Hframe2.
Qed.

Lemma safe_append_twice_witness :
  ∃ w2, safe_append (expanduser_demo "keys.txt") "two"
          (safe_append (expanduser_demo "keys.txt") "one" world_demo).2
        = (inr (), w2)
        ∧ content_of (fs w2) ["home"; "me"; "keys.txt"] = Some "oldonetwo".
Proof.
  destruct (safe_append_twice (expanduser_demo "keys.txt") "one" "two" world_demo
              (safe_append (expanduser_demo "keys.txt") "one" world_demo).2)
    as (w2 & Hrun & Hcontent & _).
  { vm_compute. reflexivity. }
  by exists w2.
Defined.

(** ** The entry point: destinations and exits *)

Section main_more.

Implicit Types (w : world).

Lemma safe_write_stdout path content force w :
  stdout (safe_write path content force w).2 = stdout w.
Proof.
  unfold safe_write, bind at 1 2 3.
  unfold confirm_overwrite, bind, get_fs, eprint, raise, ret. simpl.
  destruct (FS.path_exists (fs w) (parts path) && negb force); simpl; [done|].
  unfold FS.mkdir_parents, bind, get_fs, put_fs, raise. simpl.
  destruct (existsb _ _); simpl; [done|].
  unfold FS.write_text, bind, get_fs, put_fs, raise, eprint. simpl.
  destruct (FS.is_dir _ (FS.parent _)); simpl; [|done].
  by destruct (FS.is_dir _ (parts path)).
Qed.

Lemma safe_append_stdout path content w :
  stdout (safe_append path content w).2 = stdout w.
Proof.
  unfold safe_append, bind at 1 2.
  unfold FS.mkdir_parents, bind, get_fs, put_fs, raise. simpl.
  destruct (existsb _ _); simpl; [done|].
  unfold FS.append_text, bind, get_fs, put_fs, raise, eprint. simpl.
  destruct (FS.is_dir _ (FS.parent _)); simpl; [|done].
  destruct (FS.is_dir _ (parts path)); simpl; [done|].
  by destruct (_ !! parts path) as [[old|]|].
Qed.


(** A run in text mode: either nothing was fetched, or the payload goes to
    its destination. *)
Lemma main_with_text e a rs w :
  json a = false →
  main_with e a rs w =
    (if all_space (normalized (blocks (inline_comments a) rs))
     then eprint "No keys fetched." (after_diagnostics rs w)
     else
       (if append a then
          safe_append (append_target e a) (normalized (blocks (inline_comments a) rs))
        else if Str.truthy_opt (output a) then
          safe_write (expanduser e (default "" (output a)))
            (normalized (blocks (inline_comments a) rs)) (force a)
        else print_end (normalized (blocks (inline_comments a) rs)) "")
         (before_sink rs w)).
Proof.
  intros Hjson.
  destruct (all_space (normalized (blocks (inline_comments a) rs))) eqn:Hblank.
  - rewrite main_with_blank by done. unfold eprint, after_diagnostics. simpl.
    by rewrite app_assoc.
  - by apply main_with_sink.
Qed.

End main_more.

(** X13. A run delivers to one destination.  With [--json], or with
    neither [--append] nor a non-empty [--output], the run returns normally
    and the file system is as before; in text mode with [--append] or a
    non-empty [--output], nothing is printed on standard output. *)
Theorem main_one_destination (e : env) (a : args) (w w' : world)
    (r : abort + unit) :
  main e a w = Some (r, w') →
  (json a = true ∨ (append a = false ∧ Str.truthy_opt (output a) = false) →
   fs w' = fs w ∧ r = inr ())
  ∧ (json a = false →
     append a = true ∨ Str.truthy_opt (output a) = true →
     stdout w' = stdout w).
Proof.
  unfold main. destruct (fetch_all _ _ _) as [rs|]; [|done]. intros [= Hrun].
  destruct (json a) eqn:Hjson.
  - split; [|done]. intros _. unfold main_with in Hrun. rewrite Hjson in Hrun.
    unfold print, print_end in Hrun. by injection Hrun as <- <-.
  - rewrite main_with_text in Hrun by done.
    destruct (all_space _).
    { unfold eprint in Hrun. injection Hrun as <- <-. by repeat split. }
    split.
    + intros [|[Happend Hout]]; [done|]. rewrite Happend, Hout in Hrun.
      unfold print_end in Hrun. by injection Hrun as <- <-.
    + intros _ Hfile.
      destruct (append a).
      * pose proof (safe_append_stdout (append_target e a)
          (normalized (blocks (inline_comments a) rs)) (before_sink rs w)) as Hs.
        by rewrite Hrun in Hs.
      * destruct Hfile as [|Hout]; [done|]. rewrite Hout in Hrun.
        pose proof (safe_write_stdout (expanduser e (default "" (output a)))
          (normalized (blocks (inline_comments a) rs)) (force a) (before_sink rs w))
          as Hs.
        by rewrite Hrun in Hs.
Qed.

Lemma main_one_destination_witness :
  stdout (mkWorld ""
            ("Wrote keys to keys.txt" +:+ Str.nl)
            (<[["home"; "me"; "keys.txt"] :=
                 File ("# alice" +:+ Str.nl +:+ "ssh-rsa AAA..." +:+ Str.nl)]> fs_demo))
  = stdout world_demo.
Proof.
  destruct (main_one_destination env_alice (args_alice_keys true) world_demo
              (mkWorld ""
                 ("Wrote keys to keys.txt" +:+ Str.nl)
                 (<[["home"; "me"; "keys.txt"] :=
                      File ("# alice" +:+ Str.nl +:+ "ssh-rsa AAA..." +:+ Str.nl)]> fs_demo))
              (inr ())) as [_ Hout].
  { vm_compute. reflexivity. }
  apply Hout; [reflexivity|by right].
Defined.





(** ** The payload, line by line *)

Section payload_facts.

Implicit Types (s t x cur : string) (c : ascii) (items : list string)
  (r : FetchResult) (results : list FetchResult).

Lemma join_cons2 sep x y items :
  Str.join sep (x :: y :: items) = x +:+ sep +:+ Str.join sep (y :: items).
Proof. done. Qed.

Lemma join_not_empty sep x items : x ≠ "" → Str.join sep (x :: items) ≠ "".
Proof. destruct items; [done|]. rewrite join_cons2. by destruct x. Qed.

Lemma head_join sep x items :
  x ≠ "" → Str.head (Str.join sep (x :: items)) = Str.head x.
Proof. destruct items; [done|]. rewrite join_cons2. by destruct x. Qed.

(** The last character of a joined text is the one of its last item. *)
Lemma last_join_good items :
  items ≠ [] →
  Forall (λ x, x ≠ "" ∧ ∀ c, Str.last x = Some c → Str.isspace c = false) items →
  ∀ c, Str.last (Str.join Str.nl items) = Some c → Str.isspace c = false.
Proof.
  intros Hne Hall. induction Hall as [|x rest [Hx Hlast] Hrest IH]; [done|].
  destruct rest as [|y rest]; [done|].
  rewrite join_cons2.
  assert (Str.join Str.nl (y :: rest) ≠ "") as Hj.
  { apply join_not_empty. by apply Forall_cons in Hrest as [[? _] _]. }
  rewrite last_app by by destruct (Str.join Str.nl (y :: rest)).
  rewrite last_app by done. by apply IH.
Qed.

(** A joined text whose first item starts, and whose items all end, with
    something else than whitespace is not changed by trimming. *)
Lemma strip_join_good x items :
  (∀ c, Str.head x = Some c → Str.isspace c = false) →
  Forall (λ x, x ≠ "" ∧ ∀ c, Str.last x = Some c → Str.isspace c = false)
         (x :: items) →
  Str.strip (Str.join Str.nl (x :: items)) = Str.join Str.nl (x :: items).
Proof.
  intros Hhead Hall. apply strip_id.
  - rewrite head_join; [done|]. by apply Forall_cons in Hall as [[? _] _].
  - by apply last_join_good.
Qed.

(** Reading lines: up to the first line feed. *)
Lemma splitlines_from_line cur t rest :
  has_linebreak t = false →
  Str.splitlines_from cur (t +:+ Str.nl +:+ rest)
  = (cur +:+ t) :: Str.splitlines_from "" rest.
Proof.
  revert cur. induction t as [|c t IH]; intros cur Ht.
  - rewrite app_nil_r. by destruct rest.
  - simpl in Ht. apply orb_false_iff in Ht as [Hc Ht]. simpl. rewrite Hc.
    rewrite IH by done. by rewrite app_assoc.
Qed.

(** Splitting a text of joined lines, closed by a line feed, gives the
    lines back. *)
Lemma splitlines_join items :
  items ≠ [] →
  Forall (λ x, has_linebreak x = false) items →
  Str.splitlines (Str.join Str.nl items +:+ Str.nl) = items.
Proof.
  intros Hne Hall. unfold Str.splitlines.
  induction Hall as [|x rest Hx Hrest IH]; [done|].
  destruct rest as [|y rest].
  - simpl Str.join. rewrite <- (app_nil_r Str.nl).
    by rewrite splitlines_from_line.
  - rewrite join_cons2, !app_assoc. rewrite splitlines_from_line by done.
    simpl. f_equal. by apply IH.
Qed.

Lemma has_space_linebreak s : has_space s = false → has_linebreak s = false.
Proof.
  induction s as [|c s IH]; simpl; [done|]. intros [Hc Hs]%orb_false_iff.
  rewrite IH by done. rewrite orb_false_r. apply not_true_is_false.
  intros Hlb. apply linebreak_isspace in Hlb. congruence.
Qed.

Lemma has_space_last s c : has_space s = false → Str.last s = Some c → Str.isspace c = false.
Proof.
  induction s as [|c' s IH]; simpl; [done|]. intros [Hc Hs]%orb_false_iff.
  destruct s; [by intros [= <-]|]. by apply IH.
Qed.

Lemma head_nonspace_not_blank s c :
  Str.head s = Some c → Str.isspace c = false → all_space s = false.
Proof. destruct s; simpl; [done|]. intros [= ->] ->. done. Qed.

(** The lines a result contributes in inline mode: none, or lines of
    which the first starts with something else than whitespace. *)
Lemma inline_lines_head r :
  (∀ k, keys r = Some k → Str.strip k = k) →
  inline_lines r = []
  ∨ ∃ x rest, inline_lines r = x :: rest
              ∧ ∀ c, Str.head x = Some c → Str.isspace c = false.
Proof.
  intros Hk. unfold inline_lines. destruct (keys r) as [[|c k]|] eqn:Hkeys;
    [by left| |by left]. right.
  assert (Str.isspace c = false) as Hc.
  { apply (head_strip (String c k)). by rewrite (Hk _ eq_refl). }
  assert (Str.is_linebreak c = false) as Hlb.
  { apply not_true_is_false. intros H%linebreak_isspace. congruence. }
  unfold Str.splitlines. simpl. rewrite Hlb.
  destruct (splitlines_from_first (String c "") k) as (first & rest & -> & Hfirst);
    [done|].
  rewrite filter_cons_True by (by eapply head_nonspace_not_blank).
  simpl. eexists _, _. split; [done|].
  intros c'. destruct first as [|c'' first]; [done|].
  simpl in *. injection Hfirst as ->. by intros [= <-].
Qed.

Lemma concat_head (lists : list (list string)) :
  Forall (λ l, l = [] ∨ ∃ x rest, l = x :: rest
                 ∧ ∀ c, Str.head x = Some c → Str.isspace c = false) lists →
  concat lists = []
  ∨ ∃ x rest, concat lists = x :: rest
              ∧ ∀ c, Str.head x = Some c → Str.isspace c = false.
Proof.
  induction 1 as [|l lists Hl _ IH]; [by left|]. simpl.
  destruct Hl as [->|(x & rest & -> & Hx)]; [done|]. right. simpl. eauto.
Qed.

End payload_facts.

(** X16. In header mode, when the keys of the results carry no whitespace
    around them (as the fetcher gives them) and some result contributes,
    trimming changes nothing: the payload is, to the character, the blocks
    "# user", line feed, keys, line feed, joined by a line feed (an empty
    line between two users). *)
Theorem header_payload_exact (results : list FetchResult) (w : world) :
  Forall (λ r, ∀ k, keys r = Some k → Str.strip k = k) results →
  blocks false results ≠ [] →
  ∃ had w',
    format_results results false w
      = (inr (Str.join Str.nl (blocks false results), had), w').
Proof.
  intros Hkeys Hne. eexists _, _. rewrite format_results_spec. do 2 f_equal.
  unfold normalized.
  assert (Forall (λ x, ∃ b, x = b +:+ Str.nl ∧ Str.head b = Some "#"%char
                       ∧ ∀ c, Str.last b = Some c → Str.isspace c = false)
            (blocks false results)) as Hgood.
  { apply Forall_forall. intros x (r & k & Hr & _ & Hk & Hk0 & ->)%elem_of_header_blocks.
    exists ("# " +:+ user r +:+ Str.nl +:+ k). split; [by rewrite !app_assoc|].
    split; [done|]. intros c.
    assert ("# " +:+ user r +:+ Str.nl +:+ k = ("# " +:+ user r +:+ Str.nl) +:+ k)
      as -> by (by rewrite !app_assoc).
    rewrite last_app by done.
    rewrite Forall_forall in Hkeys. rewrite <- (Hkeys r Hr k Hk). apply last_strip. }
  assert (∃ body, Str.join Str.nl (blocks false results) = body +:+ Str.nl
                  ∧ Str.head body = Some "#"%char
                  ∧ ∀ c, Str.last body = Some c → Str.isspace c = false)
    as (body & -> & Hhead & Hlast).
  { induction Hgood as [|x rest (b & -> & Hb & Hl) Hrest IH]; [done|].
    destruct rest as [|y rest]; [by exists b|].
    destruct IH as (body & Hjoin & Hhead & Hlast); [done|].
    rewrite join_cons2, Hjoin.
    exists (b +:+ Str.nl +:+ Str.nl +:+ body). split; [by rewrite !app_assoc|].
    split; [by destruct b|]. intros c.
    rewrite <- !app_assoc. rewrite last_app by (by destruct body). apply Hlast. }
  f_equal. unfold Str.strip.
  rewrite lstrip_id by (intros c; destruct body; [done|]; simpl in *;
                        injection Hhead as ->; by intros [= <-]).
  unfold Str.nl. rewrite rstrip_snoc_space by done. by rewrite rstrip_id.
Qed.

Lemma header_payload_exact_witness :
  ∃ had w',
    format_results
      [fetch_keys (net_demo 0) "alice"; fetch_keys (net_demo 1) "ghost404";
       fetch_keys (net_demo 0) "bob"] false world0
    = (inr ("# alice" +:+ Str.nl +:+ "ssh-rsa AAA..." +:+ Str.nl +:+ Str.nl
            +:+ "# bob" +:+ Str.nl +:+ "ssh-rsa AAA..." +:+ Str.nl, had), w').
Proof.
  apply (header_payload_exact
           [fetch_keys (net_demo 0) "alice"; fetch_keys (net_demo 1) "ghost404";
            fetch_keys (net_demo 0) "bob"] world0).
  - repeat constructor; by intros k [= <-].
  - vm_compute. discriminate.
Defined.

(** X17. In inline mode, when the keys of the results carry no whitespace
    around them (as the fetcher gives them), the user names are not empty
    and contain no whitespace, and some result contributes, the lines of the
    payload are exactly the emitted lines: one key, followed by its user
    name, per line, and no other line. *)
Theorem inline_payload_lines (results : list FetchResult) (w : world) :
  Forall (λ r, (∀ k, keys r = Some k → Str.strip k = k)
               ∧ user r ≠ "" ∧ has_space (user r) = false) results →
  blocks true results ≠ [] →
  ∃ payload had w',
    format_results results true w = (inr (payload, had), w')
    ∧ Str.splitlines payload = blocks true results.
Proof.
  intros Hres Hne. eexists _, _, _. split; [apply format_results_spec|].
  rewrite Forall_forall in Hres.
  assert (Forall (λ x, x ≠ "" ∧ ∀ c, Str.last x = Some c → Str.isspace c = false)
            (blocks true results)) as Hlast.
  { apply Forall_forall.
    intros x (r & k & line & Hr & _ & _ & _ & Hline & ->)%elem_of_inline_blocks.
    destruct (Hres r Hr) as (_ & Hu & Hsp).
    split; [by destruct line|]. intros c.
    rewrite last_app by done.
    change (" " +:+ user r) with (String " " (user r)).
    rewrite last_cons by done. by apply has_space_last. }
  assert (Forall (λ x, has_linebreak x = false) (blocks true results)) as Hlb.
  { apply Forall_forall.
    intros x (r & k & line & Hr & _ & _ & Hline & _ & ->)%elem_of_inline_blocks.
    destruct (Hres r Hr) as (_ & _ & Hsp).
    rewrite !has_linebreak_app, (has_space_linebreak _ Hsp).
    by rewrite (splitlines_from_no_linebreak (String.length k) k "" line). }
  assert (blocks true results = []
          ∨ ∃ x rest, blocks true results = x :: rest
                      ∧ ∀ c, Str.head x = Some c → Str.isspace c = false)
    as [?|(x & rest & Hb & Hhead)]; [|done|].
  { unfold blocks. apply concat_head. apply Forall_forall.
    intros l Hl. apply list_elem_of_In, in_map_iff in Hl as (r & <- & Hr).
    apply list_elem_of_In, list_elem_of_filter in Hr as [_ Hr].
    apply inline_lines_head. by destruct (Hres r Hr). }
  unfold normalized. rewrite Hb in *.
  rewrite strip_join_good by done. by apply splitlines_join.
Qed.

Lemma inline_payload_lines_witness :
  ∃ payload had w',
    format_results
      [mkFetchResult "alice" (Some ("ssh-rsa AAA..." +:+ Str.nl +:+ "ssh-ed25519 BBB")) None;
       mkFetchResult "ghost404" None (Some "User not found")] true world0
    = (inr (payload, had), w')
    ∧ Str.splitlines payload = ["ssh-rsa AAA... alice"; "ssh-ed25519 BBB alice"].
Proof.
  apply (inline_payload_lines
           [mkFetchResult "alice" (Some ("ssh-rsa AAA..." +:+ Str.nl +:+ "ssh-ed25519 BBB")) None;
            mkFetchResult "ghost404" None (Some "User not found")] world0).
  - apply Forall_cons. split.
    { split; [|split; [discriminate|reflexivity]].
      intros k [= <-]. vm_compute. reflexivity. }
    apply Forall_cons. split; [|by constructor].
    split; [|split; [discriminate|reflexivity]]. intros k [=].
  - vm_compute. discriminate.
Defined.


(** ** The JSON text *)

Section json_facts.

Implicit Types (s t : string) (c : ascii) (v : Json.value) (level : nat).

Lemma plain_app s t : plain (s +:+ t) = plain s && plain t.
Proof. induction s as [|c s IH]; simpl; [done|]. by rewrite IH, andb_assoc. Qed.

Lemma plain_escape_char c : plain (Json.escape_char c) = true.
Proof. destruct c as [[] [] [] [] [] [] [] []]; vm_compute; reflexivity. Qed.

Lemma plain_escape s : plain (Json.escape s) = true.
Proof.
  induction s as [|c s IH]; simpl; [done|].
  by rewrite plain_app, plain_escape_char, IH.
Qed.

Lemma plain_encode_str s : plain (Json.encode_str s) = true.
Proof.
  unfold Json.encode_str.
  change (String Json.quote (Json.escape s +:+ String Json.quote ""))
    with (String Json.quote "" +:+ Json.escape s +:+ String Json.quote "").
  by rewrite !plain_app, plain_escape.
Qed.

Lemma plain_newline_indent level : plain (Json.newline_indent level) = true.
Proof.
  unfold Json.newline_indent. rewrite plain_app.
  induction (2 * level)%nat as [|n IH]; [done|]. simpl in *. exact IH.
Qed.

Lemma plain_join sep items :
  plain sep = true → Forall (λ x, plain x = true) items →
  plain (Str.join sep items) = true.
Proof.
  intros Hsep. induction 1 as [|x rest Hx Hrest IH]; [done|].
  destruct rest as [|y rest]; [done|].
  change (Str.join sep (x :: y :: rest)) with (x +:+ sep +:+ Str.join sep (y :: rest)).
  by rewrite !plain_app, Hx, Hsep, IH.
Qed.

(** An array is plain when its items are. *)
Lemma plain_encode_arr level items :
  Forall (λ v, plain (Json.encode (S level) v) = true) items →
  plain (Json.encode level (Json.Arr items)) = true.
Proof.
  intros Hitems. destruct items as [|v items]; [done|].
  cbn [Json.encode]. rewrite !plain_app, !plain_newline_indent.
  rewrite plain_join; [done|by rewrite plain_app, plain_newline_indent|].
  apply Forall_forall. intros x (v' & <- & Hv')%list_elem_of_In%in_map_iff.
  rewrite Forall_forall in Hitems. apply Hitems. by apply list_elem_of_In.
Qed.

(** An object is plain when the values of its fields are. *)
Lemma plain_encode_obj level (fields : list (string * Json.value)) :
  Forall (λ kv, plain (Json.encode (S level) kv.2) = true) fields →
  plain (Json.encode level (Json.Obj fields)) = true.
Proof.
  intros Hfields. destruct fields as [|kv fields]; [done|].
  cbn [Json.encode]. rewrite !plain_app, !plain_newline_indent.
  rewrite plain_join; [done|by rewrite plain_app, plain_newline_indent|].
  apply Forall_forall. intros x (kv' & <- & Hkv')%list_elem_of_In%in_map_iff.
  rewrite !plain_app, plain_encode_str. rewrite Forall_forall in Hfields.
  rewrite Hfields; [done|]. by apply list_elem_of_In.
Qed.

Lemma plain_json_entry level (r : FetchResult) :
  plain (Json.encode level (json_entry r)) = true.
Proof.
  unfold json_entry. apply plain_encode_obj.
  repeat (apply Forall_cons; split); [..|by constructor]; cbn [snd].
  - apply plain_encode_str.
  - apply plain_encode_arr. apply Forall_forall.
    intros v (line & <- & _)%list_elem_of_In%in_map_iff. apply plain_encode_str.
  - destruct (error r); [apply plain_encode_str|done].
Qed.

End json_facts.

(** X18. Whatever the user names, the keys and the error texts contain,
    what a run with [--json] prints is made of printable ASCII characters
    and line feeds only. *)
Theorem json_output_is_plain (e : env) (a : args) (w w' : world)
    (r : abort + unit) :
  json a = true →
  main e a w = Some (r, w') →
  ∃ text, stdout w' = stdout w +:+ text ∧ plain text = true.
Proof.
  intros Hjson. unfold main. destruct (fetch_all _ _ _) as [rs|]; [|done].
  unfold main_with. rewrite Hjson. unfold print, print_end. intros [= _ <-].
  eexists. split; [done|]. rewrite plain_app, andb_true_r.
  apply plain_encode_arr. apply Forall_forall.
  intros v (x & <- & _)%list_elem_of_In%in_map_iff. apply plain_json_entry.
Qed.

Lemma json_output_is_plain_witness :
  ∃ text,
    stdout (main_with env_demo
              (mkArgs ["alice"; "ghost404"] false true false None false)
              [fetch_keys (net_demo 0) "alice"; fetch_keys (net_demo 1) "ghost404"]
              world_demo).2
    = stdout world_demo +:+ text
    ∧ plain text = true.
Proof.
  apply (json_output_is_plain env_demo
           (mkArgs ["alice"; "ghost404"] false true false None false) world_demo
           _ (inr ())).
  - reflexivity.
  - vm_compute. reflexivity.
Defined.
